(** * Loreway dialogue engine: selection and realization of NPC lines

    A shallow embedding of [src/narrative/DialogueSystem.cpp] and of the
    loader [src/narrative/DialogueDataLoader.cpp], the properties the
    specification states about the engine, and further properties of the
    code.

    Conventions of the embedding:
    - [std::string] is a sequence of bytes, [list ascii]; literals are
      written [lit "..."].
    - [float] and [double] are IEEE-754 binary32 and binary64 values
      ([spec_float] of the Standard Library) with round-to-nearest-even
      arithmetic; comparisons are the IEEE ones, false on NaN.
    - [std::unordered_set] and [std::unordered_map] are finite sets and maps
      ([gset], [gmap]); the one place that depends on the iteration order of
      a set ([*begin()]) takes the order as a parameter.
    - the random engine is an interface ([RandomEngine]): the engine state
      is threaded explicitly and every draw returns the next state.
    - reading [back()] of an empty string, indexing a vector out of range
      and drawing from a uniform real distribution whose bounds it does
      not allow are undefined in C++; the embedding makes them explicit
      errors.
    - the loader reads a file and calls a JSON library that is not part of
      the repository: the content of the file is an argument, the library
      an interface ([JsonLite.Api]), and the calls that register a template
      are returned as the list of the templates registered. *)

From Stdlib Require Import ZArith Ascii String.
From Stdlib Require Import Floats.SpecFloat.
From Equations Require Import Equations.
From Equations.Prop Require Import Logic.
From stdpp Require Import base option list gmap strings countable.

Set Default Proof Using "Type".

(** ** Byte strings *)

Abbreviation Str := (list ascii).

Definition lit (s : string) : Str := list_ascii_of_string s.

(** ** IEEE-754 numbers *)

Module F32.
Definition prec : Z := 24.
Definition emax : Z := 128.
Definition of_Z (n : Z) : spec_float := binary_normalize prec emax n 0 false.
(** The literal [n/d] written in decimal in the source, rounded to the
    nearest binary32 value. *)
Definition ratio (n d : Z) : spec_float := SFdiv prec emax (of_Z n) (of_Z d).
Definition zero : spec_float := S754_zero false.
Definition add : spec_float → spec_float → spec_float := SFadd prec emax.
End F32.

Module F64.
Definition prec : Z := 53.
Definition emax : Z := 1024.
Definition of_Z (n : Z) : spec_float := binary_normalize prec emax n 0 false.
Definition ratio (n d : Z) : spec_float := SFdiv prec emax (of_Z n) (of_Z d).
Definition sub : spec_float → spec_float → spec_float := SFsub prec emax.
(** The implicit conversion [float → double]: exact, the value is
    renormalised to a 53-bit mantissa. *)
Definition of_float (x : spec_float) : spec_float :=
  match x with
  | S754_finite s m e => binary_normalize prec emax (cond_Zopp s (Zpos m)) e s
  | _ => x
  end.
End F64.

(** The comparison operators of C++ on floating-point values. *)
Definition flt (x y : spec_float) : bool := SFltb x y.   (* x <  y *)
Definition fle (x y : spec_float) : bool := SFleb x y.   (* x <= y *)
Definition fgt (x y : spec_float) : bool := SFltb y x.   (* x >  y *)
Definition fge (x y : spec_float) : bool := SFleb y x.   (* x >= y *)

Example lit_0_6f : F32.ratio 6 10 = S754_finite false 10066330 (-24).
Proof. reflexivity. Qed.
Example lit_0_3f : F32.ratio 3 10 = S754_finite false 10066330 (-25).
Proof. reflexivity. Qed.
Example lit_0_35f : F32.ratio 35 100 = S754_finite false 11744051 (-25).
Proof. reflexivity. Qed.
Example lit_0_5f : F32.ratio 5 10 = S754_finite false 8388608 (-24).
Proof. reflexivity. Qed.
Example lit_0_7f : F32.ratio 7 10 = S754_finite false 11744051 (-24).
Proof. reflexivity. Qed.
Example lit_0_4f : F32.ratio 4 10 = S754_finite false 13421773 (-25).
Proof. reflexivity. Qed.
Example lit_0_2f : F32.ratio 2 10 = S754_finite false 13421773 (-26).
Proof. reflexivity. Qed.
Example lit_1_5f : F32.ratio 15 10 = S754_finite false 12582912 (-23).
Proof. reflexivity. Qed.
Example lit_5d : F64.of_Z 5 = S754_finite false 5629499534213120 (-50).
Proof. reflexivity. Qed.
Example promote_5f : F64.of_float (F32.of_Z 5) = F64.of_Z 5.
Proof. reflexivity. Qed.

(** ** Enumerations and structures of the dialogue model *)

Inductive DialogueFunction :=
  | NeutralAmbient | Dread | Misdirection | RitualHint | Rumor
  | Bureaucratic | ThreatBark | Pain | Surprise.

Inductive ReliabilityTag := Unknown | Truthful | Partial | KnownFalse.

Inductive RegionTone :=
  | ForestVillage | SovietApartment | IndustrialBlock | BorderOutpost.

Inductive SpeakerSocialRole :=
  | Villager | Bureaucrat | Priest | Smuggler | Soldier | Doctor | Hermit.

#[global] Instance DialogueFunction_eq_dec : EqDecision DialogueFunction.
Proof. solve_decision. Defined.
#[global] Instance RegionTone_eq_dec : EqDecision RegionTone.
Proof. solve_decision. Defined.
#[global] Instance SpeakerSocialRole_eq_dec : EqDecision SpeakerSocialRole.
Proof. solve_decision. Defined.

(** [static_cast<int>(key.function)], the value hashed by [CooldownKeyHasher]. *)
Definition function_index (f : DialogueFunction) : nat :=
  match f with
  | NeutralAmbient => 0 | Dread => 1 | Misdirection => 2 | RitualHint => 3
  | Rumor => 4 | Bureaucratic => 5 | ThreatBark => 6 | Pain => 7 | Surprise => 8
  end.

Definition function_of_index (n : nat) : option DialogueFunction :=
  match n with
  | 0 => Some NeutralAmbient | 1 => Some Dread | 2 => Some Misdirection
  | 3 => Some RitualHint | 4 => Some Rumor | 5 => Some Bureaucratic
  | 6 => Some ThreatBark | 7 => Some Pain | 8 => Some Surprise
  | _ => None
  end.

#[global] Instance DialogueFunction_countable : Countable DialogueFunction.
Proof.
  apply (inj_countable function_index function_of_index).
  intros []; reflexivity.
Defined.

Module DialogueContext.
Record t := mk {
  regionTone : RegionTone;
  threatLevel01 : spec_float;
  isIndoors : bool;
  isNight : bool;
  playerRecentlyBrokeTaboo : bool;
  playerLowHealth : bool;
  playerIsBleeding : bool;
  inSafeRoomFlagged : bool;
  locationId : Str;
  activeTabooIds : gset Str;
  recentEventIds : gset Str;
  knownRumorIds : gset Str
}.
End DialogueContext.

Module NPCVoiceProfile.
Record t := mk {
  npcId : Str;
  displayName : Str;
  role : SpeakerSocialRole;
  verbosity01 : spec_float;
  superstition01 : spec_float;
  bureaucratic01 : spec_float;
  religiosity01 : spec_float;
  cruelty01 : spec_float;
  unreliability01 : spec_float;
  fatalism01 : spec_float;
  dialectTag : Str;
  personalMotifs : list Str;
  cooldownSeconds : gmap DialogueFunction spec_float
}.

(** The default member initialiser of [cooldownSeconds]. *)
Definition default_cooldownSeconds : gmap DialogueFunction spec_float :=
  list_to_map
    [ (NeutralAmbient, F32.of_Z 20); (Dread, F32.of_Z 15);
      (Misdirection, F32.of_Z 25); (RitualHint, F32.of_Z 45);
      (Rumor, F32.of_Z 40); (Bureaucratic, F32.of_Z 35);
      (ThreatBark, F32.of_Z 5); (Pain, F32.of_Z 3); (Surprise, F32.of_Z 8) ].
End NPCVoiceProfile.

Module DialogueTemplate.
Record t := mk {
  id : Str;
  function : DialogueFunction;
  reliability : ReliabilityTag;
  regionTone : RegionTone;
  requiredTabooIds : list Str;
  requiredEventIds : list Str;
  disallowedLocationIds : list Str;
  allowedRoles : list SpeakerSocialRole;
  text : Str;
  weight : spec_float;
  (** [std::function]: [None] is the empty function object. *)
  condition : option (DialogueContext.t → NPCVoiceProfile.t → bool)
}.
End DialogueTemplate.

Example membership_computes : bool_decide (lit "b" ∈ ({[ lit "a"; lit "b" ]} : gset Str)) = true.
Proof. vm_compute. reflexivity. Qed.
Example default_cooldown_of_pain : NPCVoiceProfile.default_cooldownSeconds !! Pain = Some (F32.of_Z 3).
Proof. vm_compute. reflexivity. Qed.

(** ** [std::string] operations used by the realizer *)

Fixpoint starts_with (p s : Str) : bool :=
  match p, s with
  | [], _ => true
  | a :: p', b :: s' => bool_decide (a = b) && starts_with p' s'
  | _ :: _, [] => false
  end.

(** Lowest index at which [token] occurs in [s]. *)
Fixpoint find_first (token s : Str) : option nat :=
  if starts_with token s then Some 0
  else match s with
       | [] => None
       | _ :: s' => S <$> find_first token s'
       end.

(** [text.find(token, pos)]: the lowest index [>= pos] at which [token]
    occurs; [None] is [npos]. *)
Definition find (text token : Str) (pos : nat) : option nat :=
  if decide (pos ≤ length text)
  then (λ i, pos + i) <$> find_first token (drop pos text)
  else None.

(** [text.replace(pos, n, value)], for [pos <= text.size()]. *)
Definition replace (text : Str) (pos n : nat) (value : Str) : Str :=
  take pos text ++ value ++ drop (pos + n) text.

(** Highest index at which the character [c] occurs in [s]. *)
Fixpoint last_index (c : ascii) (s : Str) : option nat :=
  match s with
  | [] => None
  | a :: s' =>
      match last_index c s' with
      | Some i => Some (S i)
      | None => if decide (a = c) then Some 0 else None
      end
  end.

(** [line.rfind(c, pos)]: the highest index [<= pos] holding [c]. *)
Definition rfind (line : Str) (c : ascii) (pos : nat) : option nat :=
  last_index c (take (S pos) line).

(** [line.erase(pos)]: everything from [pos] on is removed. *)
Definition erase (line : Str) (pos : nat) : Str := take pos line.

(** [token] occurs in [text] at index [i]. *)
Definition occurs_at (token text : Str) (i : nat) : Prop :=
  ∃ pre post, text = pre ++ token ++ post ∧ length pre = i.

(** [token] occurs somewhere in [text]. *)
Definition occurs (token text : Str) : Prop :=
  ∃ pre post, text = pre ++ token ++ post.

Lemma starts_with_spec p s : starts_with p s = true ↔ ∃ post, s = p ++ post.
Proof.
  revert s. induction p as [|a p IH]; intros s; simpl.
  - split; eauto.
  - destruct s as [|b s]; simpl.
    + split; [discriminate | intros [? ?]; discriminate].
    + rewrite andb_true_iff, bool_decide_eq_true, IH. split.
      * intros [-> [post ->]]. eauto.
      * intros [post [= -> ->]]. eauto.
Qed.

Lemma find_first_bounds token s i :
  find_first token s = Some i → i + length token ≤ length s.
Proof.
  revert i. induction s as [|b s IH]; intros i; simpl.
  - destruct (starts_with token []) eqn:Hp; [|discriminate].
    intros [= <-]. apply starts_with_spec in Hp as [post Hp].
    destruct token; [simpl; lia | discriminate].
  - destruct (starts_with token (b :: s)) eqn:Hp.
    + intros [= <-]. apply starts_with_spec in Hp as [post Hp].
      apply (f_equal length) in Hp. rewrite length_app in Hp. simpl in *. lia.
    + destruct (find_first token s) as [j|]; [|discriminate].
      intros [= <-]. specialize (IH j eq_refl). simpl. lia.
Qed.

Lemma find_bounds text token pos p :
  find text token pos = Some p → pos ≤ p ∧ p + length token ≤ length text.
Proof.
  unfold find. case_decide as Hle; [|discriminate].
  destruct (find_first token (drop pos text)) as [i|] eqn:Hf; [|discriminate].
  intros [= <-]. apply find_first_bounds in Hf.
  rewrite length_drop in Hf. lia.
Qed.

(** The [while] loop of [ReplaceToken], for a token [c :: tk] that is not
    empty. State: the text being edited and the scan position. *)
Equations? ReplaceToken_loop (c : ascii) (tk value text : Str) (pos : nat) : Str
  by wf (length text - pos) lt :=
  ReplaceToken_loop c tk value text pos with inspect (find text (c :: tk) pos) := {
    | exist _ None _ => text
    | exist _ (Some p) Hf =>
        ReplaceToken_loop c tk value
          (replace text p (length (c :: tk)) value) (p + length value) }.
Proof.
  apply find_bounds in Hf as [Hlo Hhi]. simpl in Hhi.
  unfold replace. rewrite !length_app, length_take, length_drop. simpl. lia.
Qed.

Definition ReplaceToken (text token value : Str) : Str :=
  match token with
  | [] => text                                    (* if (token.empty()) return; *)
  | c :: tk => ReplaceToken_loop c tk value text 0
  end.

Example ReplaceToken_self :
  ReplaceToken (lit "{X}") (lit "{X}") (lit "a{X}b") = lit "a{X}b".
Proof. vm_compute. reflexivity. Qed.
Example ReplaceToken_twice :
  ReplaceToken (lit "x{X}y{X}") (lit "{X}") (lit "a{X}b") = lit "xa{X}bya{X}b".
Proof. vm_compute. reflexivity. Qed.

(** ** Random source *)

(** The three distributions drawn from the [std::mt19937] engine. [R] is the
    state of the engine; a draw returns its value and the next state. *)
Class RandomEngine (R : Type) := {
  uniform_int : Z → Z → R → Z * R;
  uniform_real : spec_float → spec_float → R → spec_float * R;
  bernoulli : spec_float → R → bool * R
}.

(** Behaviour the C++ standard leaves undefined. *)
Inductive Undefined := BackOfEmptyString | IndexOutOfRange | DistributionBounds.

(** A finite number as [(m, e)], of value [m * 2^e]; [None] for an infinity
    and for NaN. *)
Definition finite_value (x : spec_float) : option (Z * Z) :=
  match x with
  | S754_zero _ => Some (0%Z, 0%Z)
  | S754_finite s m e => Some (cond_Zopp s (Zpos m), e)
  | _ => None
  end.

(** What [std::uniform_real_distribution<float>(a, b)] requires of its
    bounds: [a <= b] and [b - a <= numeric_limits<float>::max()], the
    difference taken exactly; the maximum is [(2^24 - 1) * 2^104]. *)
Definition uniform_real_allowed (a b : spec_float) : bool :=
  fle a b
  && match finite_value a, finite_value b with
     | Some (ma, ea), Some (mb, eb) =>
         let e := Z.min ea eb in
         let d := (mb * 2 ^ (eb - e) - ma * 2 ^ (ea - e))%Z in
         if (e <=? 104)%Z then (d <=? 16777215 * 2 ^ (104 - e))%Z
         else (d * 2 ^ (e - 104) <=? 16777215)%Z
     | _, _ => false
     end.

Example uniform_real_allowed_5 : uniform_real_allowed F32.zero (F32.of_Z 5) = true.
Proof. reflexivity. Qed.
Example uniform_real_allowed_nan : uniform_real_allowed F32.zero S754_nan = false.
Proof. reflexivity. Qed.
Example uniform_real_allowed_infinity :
  uniform_real_allowed F32.zero (S754_infinity false) = false.
Proof. reflexivity. Qed.
Example uniform_real_allowed_full_range :
  uniform_real_allowed (S754_finite true 16777215 104) (S754_finite false 16777215 104)
  = false.
Proof. reflexivity. Qed.

(** Of the three methods, [RandomFloat] is the one called with a bound
    computed from data, the total of the weights, which can fall outside
    what the distribution allows; [RandomInt] is called with [0] and [3]
    and [Chance] with literals strictly between 0 and 1. *)
Module RNG.
Section RNG.
Context {R : Type} `{!RandomEngine R}.

Definition RandomInt (minInclusive maxInclusive : Z) (g : R) : Z * R :=
  uniform_int minInclusive maxInclusive g.

Definition RandomFloat (minInclusive maxInclusive : spec_float) (g : R)
  : Undefined + spec_float * R :=
  if uniform_real_allowed minInclusive maxInclusive
  then inr (uniform_real minInclusive maxInclusive g)
  else inl DistributionBounds.

Definition Chance (probability01 : spec_float) (g : R) : bool * R :=
  if fle probability01 F32.zero then (false, g)
  else if fge probability01 (F32.of_Z 1) then (true, g)
  else bernoulli probability01 g.
End RNG.
End RNG.

(** The element [*s.begin()] of a non-empty [std::unordered_set]: which
    member comes first is up to the container. *)
Class UnorderedSetOrder := unordered_begin : gset Str → Str.

(** ** The engine *)

Record EmergentEvent := {
  eventId : Str;
  regionId : Str;
  severity01 : spec_float;
  timestampSeconds : spec_float
}.

Record DialogueSystem {R : Type} := mkDialogueSystem {
  rng : R;
  currentTimeSeconds : spec_float;
  npcProfiles : gmap Str NPCVoiceProfile.t;
  templates : list DialogueTemplate.t;
  emergentEvents : list EmergentEvent;
  (** keyed by [CooldownKey { npcId, function }] *)
  lastFireTimestamps : gmap (Str * DialogueFunction) spec_float
}.
Arguments DialogueSystem R : clear implicits.

Definition with_rng {R} (sys : DialogueSystem R) (g : R) : DialogueSystem R :=
  mkDialogueSystem R g (currentTimeSeconds sys) (npcProfiles sys) (templates sys)
    (emergentEvents sys) (lastFireTimestamps sys).

(** The five templates built by [InitializeDefaultTemplates]. *)

Definition t1 : DialogueTemplate.t :=
  DialogueTemplate.mk (lit "ONB_FOREST_DREAD_01") Dread Unknown ForestVillage
    [] [] [] [Villager; Hermit]
    (lit "The trees remember what the village forgets.") (F32.of_Z 2)
    (Some (λ ctx _, DialogueContext.isNight ctx
                    && fgt (DialogueContext.threatLevel01 ctx) (F32.ratio 3 10))).

Definition t2 : DialogueTemplate.t :=
  DialogueTemplate.mk (lit "ONB_VILLAGER_LIE_DISAPPEAR") Misdirection KnownFalse
    ForestVillage
    [] [lit "EV_WELL_COLLAPSE_ASHDITCH"] [] [Villager]
    (lit "No one has gone missing since they fixed the wires.") (F32.of_Z 1)
    (Some (λ ctx _, DialogueContext.isNight ctx)).

Definition t3 : DialogueTemplate.t :=
  DialogueTemplate.mk (lit "ONB_RITUAL_HINT_WHISTLE") RitualHint Partial
    ForestVillage
    [lit "TABS_WHISTLE_AT_NIGHT"] [] [] [Villager; Priest]
    (lit "If the branches start singing, count your teeth and keep walking.")
    (F32.ratio 15 10)
    (Some (λ ctx _, DialogueContext.isNight ctx
                    && fgt (DialogueContext.threatLevel01 ctx) (F32.ratio 2 10))).

Definition t4 : DialogueTemplate.t :=
  DialogueTemplate.mk (lit "BUREAU_FLAT_NOTICE_01") Bureaucratic Truthful
    SovietApartment
    [] [] [] [Bureaucrat; Doctor]
    (lit "If you hear singing in the stairwell, do not open your door. The building committee is handling it.")
    (F32.of_Z 1)
    (Some (λ ctx _, DialogueContext.isIndoors ctx && DialogueContext.isNight ctx)).

Definition t5 : DialogueTemplate.t :=
  DialogueTemplate.mk (lit "GENERIC_PAIN_01") Pain Truthful ForestVillage
    [] [] [] []
    (lit "Hold still. You're leaking like the old well.") (F32.of_Z 3)
    (Some (λ ctx _, DialogueContext.playerIsBleeding ctx)).

Definition InitializeDefaultTemplates : list DialogueTemplate.t :=
  [t1; t2; t3; t4; t5].

(** The constructor [DialogueSystem()]; [g] is the freshly seeded engine. *)
Definition DialogueSystem_new {R} (g : R) : DialogueSystem R :=
  mkDialogueSystem R g (S754_zero false) ∅ InitializeDefaultTemplates [] ∅.

Definition SetCurrentTimeSeconds {R} (sys : DialogueSystem R) (t : spec_float)
  : DialogueSystem R :=
  mkDialogueSystem R (rng sys) t (npcProfiles sys) (templates sys)
    (emergentEvents sys) (lastFireTimestamps sys).

Definition RegisterNPCProfile {R} (sys : DialogueSystem R)
    (profile : NPCVoiceProfile.t) : DialogueSystem R :=
  mkDialogueSystem R (rng sys) (currentTimeSeconds sys)
    (<[NPCVoiceProfile.npcId profile := profile]> (npcProfiles sys))
    (templates sys) (emergentEvents sys) (lastFireTimestamps sys).

(** [None] is the null pointer. *)
Definition GetNPCProfile {R} (sys : DialogueSystem R) (npcId : Str)
  : option NPCVoiceProfile.t :=
  npcProfiles sys !! npcId.

Definition NotifyEvent {R} (sys : DialogueSystem R) (eventId regionId : Str)
    (severity01 : spec_float) : DialogueSystem R :=
  mkDialogueSystem R (rng sys) (currentTimeSeconds sys) (npcProfiles sys)
    (templates sys)
    (emergentEvents sys ++
       [Build_EmergentEvent eventId regionId severity01 (currentTimeSeconds sys)])
    (lastFireTimestamps sys).

(** *** Trigger → function mapping *)

Definition MapTriggerToFunction (triggerTag : Str) (ctx : DialogueContext.t)
    (profile : NPCVoiceProfile.t) : DialogueFunction :=
  if decide (triggerTag = lit "on_enemy_spotted") then ThreatBark
  else if decide (triggerTag = lit "on_player_pain") then Pain
  else if decide (triggerTag = lit "on_player_surprised") then Surprise
  else if decide (triggerTag = lit "on_player_breaks_taboo") then RitualHint
  else if decide (triggerTag = lit "on_night_heartbeat") then
    if fgt (NPCVoiceProfile.superstition01 profile) (F32.ratio 6 10) then Dread
    else Rumor
  else if decide (triggerTag = lit "on_enter_safehouse") then
    if fgt (NPCVoiceProfile.bureaucratic01 profile) (F32.ratio 5 10)
    then Bureaucratic
    else NeutralAmbient
  else if fgt (DialogueContext.threatLevel01 ctx) (F32.ratio 6 10) then Dread
  else if negb (bool_decide (DialogueContext.knownRumorIds ctx = ∅)) then Rumor
  else NeutralAmbient.

(** *** Cooldown handling *)

Definition CanFire {R} (sys : DialogueSystem R) (profile : NPCVoiceProfile.t)
    (fn : DialogueFunction) : bool :=
  let it := lastFireTimestamps sys !! (NPCVoiceProfile.npcId profile, fn) in
  let cooldown :=
    match NPCVoiceProfile.cooldownSeconds profile !! fn with
    | Some c => c
    | None => F32.zero
    end in
  if fle cooldown F32.zero then true
  else match it with
       | None => true
       | Some lastTime =>
           if fge (F64.sub (currentTimeSeconds sys) lastTime)
                  (F64.of_float cooldown)
           then true else false
       end.

Definition TouchCooldown {R} (sys : DialogueSystem R) (npcId : Str)
    (fn : DialogueFunction) : DialogueSystem R :=
  mkDialogueSystem R (rng sys) (currentTimeSeconds sys) (npcProfiles sys)
    (templates sys) (emergentEvents sys)
    (<[(npcId, fn) := currentTimeSeconds sys]> (lastFireTimestamps sys)).

(** *** Candidate collection *)

(** The body of the loop over [templates]: [false] where the source
    [continue]s, [true] where it reaches [out.push_back(&t)]. *)
Definition candidate_passes (ctx : DialogueContext.t)
    (profile : NPCVoiceProfile.t) (fn : DialogueFunction)
    (t : DialogueTemplate.t) : bool :=
  if negb (bool_decide (DialogueTemplate.function t = fn)) then false
  (* Region filter *)
  else if negb (bool_decide (DialogueTemplate.regionTone t = DialogueContext.regionTone ctx))
          && negb (bool_decide (DialogueTemplate.regionTone t = ForestVillage))
          && negb (bool_decide (DialogueContext.regionTone ctx = ForestVillage))
  then false
  (* Role filter *)
  else if negb (bool_decide (DialogueTemplate.allowedRoles t = []))
          && negb (existsb (λ r, bool_decide (r = NPCVoiceProfile.role profile))
                     (DialogueTemplate.allowedRoles t))
  then false
  (* Required taboos *)
  else if negb (forallb (λ tb, bool_decide (tb ∈ DialogueContext.activeTabooIds ctx))
                  (DialogueTemplate.requiredTabooIds t))
  then false
  (* Required events *)
  else if negb (forallb (λ ev, bool_decide (ev ∈ DialogueContext.recentEventIds ctx))
                  (DialogueTemplate.requiredEventIds t))
  then false
  (* Location blacklist *)
  else if negb (bool_decide (DialogueContext.locationId ctx = []))
          && existsb (λ loc, bool_decide (loc = DialogueContext.locationId ctx))
               (DialogueTemplate.disallowedLocationIds t)
  then false
  (* Custom condition *)
  else match DialogueTemplate.condition t with
       | Some condition => if negb (condition ctx profile) then false else true
       | None => true
       end.

Definition CollectCandidates {R} (sys : DialogueSystem R)
    (ctx : DialogueContext.t) (profile : NPCVoiceProfile.t)
    (fn : DialogueFunction) : list DialogueTemplate.t :=
  List.filter (candidate_passes ctx profile fn) (templates sys).

(** *** Weighted selection *)

(** The second loop of [PickTemplateWeighted]: the first candidate at which
    the running sum reaches [roll]; [None] when the loop falls through. *)
Fixpoint pick_scan (roll cumulative : spec_float)
    (candidates : list DialogueTemplate.t) : option DialogueTemplate.t :=
  match candidates with
  | [] => None
  | t :: rest =>
      let cumulative := F32.add cumulative (DialogueTemplate.weight t) in
      if fle roll cumulative then Some t else pick_scan roll cumulative rest
  end.

(** [totalWeight] after the first loop, starting from [acc]. *)
Definition sum_weights (acc : spec_float) (candidates : list DialogueTemplate.t)
  : spec_float :=
  foldl (λ total t, F32.add total (DialogueTemplate.weight t)) acc candidates.

(** *** Token values *)

Definition PickPlayerCallsign (profile : NPCVoiceProfile.t) : Str :=
  match NPCVoiceProfile.role profile with
  | Bureaucrat => lit "citizen"
  | Soldier => lit "strannik"
  | Priest => lit "soul"
  | _ => lit "you"
  end.

Definition PickLocalSpiritEpithet (ctx : DialogueContext.t) : Str :=
  match DialogueContext.regionTone ctx with
  | ForestVillage => lit "the bent one"
  | SovietApartment => lit "the stairwell listener"
  | IndustrialBlock => lit "the thing in the ducts"
  | BorderOutpost => lit "the one beyond the fence"
  end.

Definition PickPlaceName (ctx : DialogueContext.t) : Str :=
  if bool_decide (find (DialogueContext.locationId ctx) (lit "ASHDITCH") 0 ≠ None)
  then lit "Ash Ditch"
  else if bool_decide (find (DialogueContext.locationId ctx) (lit "BLOCK_A") 0 ≠ None)
  then lit "Block A stairwell"
  else lit "this place".

Definition PickBodySymptom (ctx : DialogueContext.t) : Str :=
  if DialogueContext.playerIsBleeding ctx then lit "bleeding"
  else if DialogueContext.playerLowHealth ctx then lit "shaking"
  else lit "breathing".

Definition tails : list Str :=
  [ lit " You get used to it."; lit " It was worse before.";
    lit " It never really stops."; lit " That's just how it is here." ].

(** [line.back() = c], for a line that is not empty. *)
Definition set_back (line : Str) (c : ascii) : Str :=
  take (length line - 1) line ++ [c].

Section Engine.
Context {R : Type} `{!RandomEngine R} `{!UnorderedSetOrder}.

Definition PickTemplateWeighted (candidates : list DialogueTemplate.t) (g : R)
  : Undefined + option DialogueTemplate.t * R :=
  match candidates with
  | [] => inr (None, g)
  | first :: _ =>
      let totalWeight := sum_weights F32.zero candidates in
      if fle totalWeight F32.zero then inr (Some first, g)
      else
        match RNG.RandomFloat F32.zero totalWeight g with
        | inl ub => inl ub
        | inr (roll, g) =>
            match pick_scan roll F32.zero candidates with
            | Some t => inr (Some t, g)
            | None => inr (list.last candidates, g)      (* candidates.back() *)
            end
        end
  end.

Definition PickTabooPhrase (ctx : DialogueContext.t) : Str :=
  if bool_decide (DialogueContext.activeTabooIds ctx = ∅) then lit "the old rules"
  else
    let anyId := unordered_begin (DialogueContext.activeTabooIds ctx) in
    if decide (anyId = lit "TABS_WHISTLE_AT_NIGHT") then lit "no whistling after dark"
    else if decide (anyId = lit "TABS_NO_BUCKETS_UPSIDE_DOWN")
    then lit "never leave a bucket mouth‑down"
    else lit "the village law".

(** The five [ReplaceToken] calls of [RealizeTemplate]. *)
Definition SubstituteTokens (t : DialogueTemplate.t) (ctx : DialogueContext.t)
    (profile : NPCVoiceProfile.t) : Str :=
  let base := DialogueTemplate.text t in
  let base := ReplaceToken base (lit "{PLAYER_CALLSIGN}") (PickPlayerCallsign profile) in
  let base := ReplaceToken base (lit "{LOCAL_SPIRIT}") (PickLocalSpiritEpithet ctx) in
  let base := ReplaceToken base (lit "{TABOO}") (PickTabooPhrase ctx) in
  let base := ReplaceToken base (lit "{PLACE}") (PickPlaceName ctx) in
  let base := ReplaceToken base (lit "{BODYSYMPTOM}") (PickBodySymptom ctx) in
  base.

(** The four blocks of [ApplyStyleNoise], in source order. *)

Definition StyleTruncate (line : Str) (profile : NPCVoiceProfile.t) (g : R)
  : Str * R :=
  if flt (NPCVoiceProfile.verbosity01 profile) (F32.ratio 3 10) then
    if decide (60 < length line) then
      match rfind line " "%char 60 with
      | Some cutPos =>
          let line := erase line cutPos in
          let '(ellipsis, g) := RNG.Chance (F32.ratio 5 10) g in
          if ellipsis then (line ++ lit "...", g) else (line, g)
      | None => (line, g)
      end
    else (line, g)
  else (line, g).

Definition StyleFatalism (line : Str) (profile : NPCVoiceProfile.t)
    (fn : DialogueFunction) (g : R) : Undefined + Str * R :=
  if fgt (NPCVoiceProfile.fatalism01 profile) (F32.ratio 6 10) then
    let '(hit, g) := RNG.Chance (F32.ratio 4 10) g in
    if hit then
      if bool_decide (fn = Dread) || bool_decide (fn = Rumor) then
        let '(idx, g) := RNG.RandomInt 0 (Z.of_nat (length tails) - 1) g in
        match (if decide (0 ≤ idx)%Z then tails !! Z.to_nat idx else None) with
        | Some tail => inr (line ++ tail, g)
        | None => inl IndexOutOfRange
        end
      else inr (line, g)
    else inr (line, g)
  else inr (line, g).

Definition StyleBureaucratic (line : Str) (profile : NPCVoiceProfile.t)
    (fn : DialogueFunction) (g : R) : Str * R :=
  if fgt (NPCVoiceProfile.bureaucratic01 profile) (F32.ratio 5 10)
     && bool_decide (fn = Bureaucratic) then
    let '(hit, g) := RNG.Chance (F32.ratio 5 10) g in
    if hit then (lit "According to regulations, " ++ line, g) else (line, g)
  else (line, g).

Definition StyleSuperstition (line : Str) (profile : NPCVoiceProfile.t) (g : R)
  : Undefined + Str * R :=
  if fgt (NPCVoiceProfile.superstition01 profile) (F32.ratio 7 10) then
    let '(hit, g) := RNG.Chance (F32.ratio 35 100) g in
    if hit then
      match list.last line with
      | None => inl BackOfEmptyString                 (* line.back() *)
      | Some c =>
          let line := if decide (c = "."%char) then set_back line " "%char
                      else line in
          inr (line ++ lit "Just... don't ask.", g)
      end
    else inr (line, g)
  else inr (line, g).

Definition ApplyStyleNoise (line : Str) (profile : NPCVoiceProfile.t)
    (fn : DialogueFunction) (g : R) : Undefined + Str * R :=
  let '(line, g) := StyleTruncate line profile g in
  match StyleFatalism line profile fn g with
  | inl ub => inl ub
  | inr (line, g) =>
      let '(line, g) := StyleBureaucratic line profile fn g in
      StyleSuperstition line profile g
  end.

Definition RealizeTemplate (t : DialogueTemplate.t) (ctx : DialogueContext.t)
    (profile : NPCVoiceProfile.t) (g : R) : Undefined + Str * R :=
  let base := SubstituteTokens t ctx profile in
  ApplyStyleNoise base profile (DialogueTemplate.function t) g.

(** [GenerateLine]: the line and the state of the system after the call. *)
Definition GenerateLine (sys : DialogueSystem R) (npcId triggerTag : Str)
    (ctx : DialogueContext.t) : Undefined + Str * DialogueSystem R :=
  match GetNPCProfile sys npcId with
  | None => inr ([], sys)
  | Some profile =>
      let desiredFunction := MapTriggerToFunction triggerTag ctx profile in
      if negb (CanFire sys profile desiredFunction) then inr ([], sys)
      else
        let candidates := CollectCandidates sys ctx profile desiredFunction in
        if bool_decide (candidates = []) then inr ([], sys)
        else
          match PickTemplateWeighted candidates (rng sys) with
          | inl ub => inl ub
          | inr (chosen, g) =>
              let sys := with_rng sys g in
              match chosen with
              | None => inr ([], sys)
              | Some chosen =>
                  let sys := TouchCooldown sys (NPCVoiceProfile.npcId profile)
                               desiredFunction in
                  match RealizeTemplate chosen ctx profile (rng sys) with
                  | inl ub => inl ub
                  | inr (line, g) => inr (line, with_rng sys g)
                  end
              end
          end
  end.
End Engine.

(** ** The data loader ([src/narrative/DialogueDataLoader.cpp]) *)

(** The view of the knowledge graph that the loader validates against. *)
Module LorewayKGView.
Record t := mk {
  spiritIds : gset Str;
  placeIds : gset Str;
  eventIds : gset Str;
  tabooIds : gset Str;
  rumorIds : gset Str
}.

(** [ids.count(id)] of a [std::unordered_set]. *)
Definition count (ids : gset Str) (id : Str) : nat :=
  if decide (id ∈ ids) then 1 else 0.

Definition HasSpirit (kg : t) (id : Str) : bool := 0 <? count (spiritIds kg) id.
Definition HasPlace (kg : t) (id : Str) : bool := 0 <? count (placeIds kg) id.
Definition HasEvent (kg : t) (id : Str) : bool := 0 <? count (eventIds kg) id.
Definition HasTaboo (kg : t) (id : Str) : bool := 0 <? count (tabooIds kg) id.
Definition HasRumor (kg : t) (id : Str) : bool := 0 <? count (rumorIds kg) id.
End LorewayKGView.

(** [std::tolower] in the "C" locale, the locale of a program that never
    calls [setlocale]: the letters [A] to [Z] go to [a] to [z], every other
    byte to itself. *)
Definition tolower (c : ascii) : ascii :=
  let n := nat_of_ascii c in
  if (65 <=? n) && (n <=? 90) then ascii_of_nat (n + 32) else c.

Definition ToLower (s : Str) : Str := map tolower s.

Definition ParseFunction (s : Str) : DialogueFunction :=
  let v := ToLower s in
  if decide (v = lit "neutralambient") then NeutralAmbient
  else if decide (v = lit "dread") then Dread
  else if decide (v = lit "misdirection") then Misdirection
  else if decide (v = lit "ritualhint") then RitualHint
  else if decide (v = lit "rumor") then Rumor
  else if decide (v = lit "bureaucratic") then Bureaucratic
  else if decide (v = lit "threatbark") then ThreatBark
  else if decide (v = lit "pain") then Pain
  else if decide (v = lit "surprise") then Surprise
  else NeutralAmbient.

Definition ParseReliability (s : Str) : ReliabilityTag :=
  let v := ToLower s in
  if decide (v = lit "truthful") then Truthful
  else if decide (v = lit "partial") then Partial
  else if decide (v = lit "knownfalse") then KnownFalse
  else Unknown.

Definition ParseRegionTone (s : Str) : RegionTone :=
  let v := ToLower s in
  if decide (v = lit "forestvillage") then ForestVillage
  else if decide (v = lit "sovietapartment") then SovietApartment
  else if decide (v = lit "industrialblock") then IndustrialBlock
  else if decide (v = lit "borderoutpost") then BorderOutpost
  else ForestVillage.

Definition ParseRole (s : Str) : SpeakerSocialRole :=
  let v := ToLower s in
  if decide (v = lit "villager") then Villager
  else if decide (v = lit "bureaucrat") then Bureaucrat
  else if decide (v = lit "priest") then Priest
  else if decide (v = lit "smuggler") then Smuggler
  else if decide (v = lit "soldier") then Soldier
  else if decide (v = lit "doctor") then Doctor
  else if decide (v = lit "hermit") then Hermit
  else Villager.

(** The trademark and registered signs, as the UTF-8 bytes of the source
    file. *)
Definition forbiddenMarkers : list Str := [ lit "™"; lit "®" ].

Example forbiddenMarkers_bytes :
  map (map nat_of_ascii) forbiddenMarkers = [ [226; 132; 162]; [194; 174] ].
Proof. reflexivity. Qed.

Definition ContainsForbiddenIPTokens (text : Str) : bool :=
  existsb (λ m, bool_decide (find text m 0 ≠ None)) forbiddenMarkers.

Definition missing_taboo_warning (t : DialogueTemplate.t) (tb : Str) : Str :=
  lit "DialogueTemplate '" ++ DialogueTemplate.id t
    ++ lit "' references missing Taboo ID '" ++ tb ++ lit "'".

Definition missing_event_warning (t : DialogueTemplate.t) (ev : Str) : Str :=
  lit "DialogueTemplate '" ++ DialogueTemplate.id t
    ++ lit "' references missing Event ID '" ++ ev ++ lit "'".

(** [outWarnings] is passed by reference: the function returns the vector
    after its [push_back]s. *)
Definition ValidateKGLinks (t : DialogueTemplate.t) (kg : LorewayKGView.t)
    (outWarnings : list Str) : list Str :=
  let outWarnings :=
    foldl (λ out tb,
             if negb (LorewayKGView.HasTaboo kg tb)
             then out ++ [missing_taboo_warning t tb] else out)
      outWarnings (DialogueTemplate.requiredTabooIds t) in
  foldl (λ out ev,
           if negb (LorewayKGView.HasEvent kg ev)
           then out ++ [missing_event_warning t ev] else out)
    outWarnings (DialogueTemplate.requiredEventIds t).

(** [static_cast<float>(x)] for a [double] [x]: the nearest binary32
    value, an infinity past the binary32 range. *)
Definition float_of_double (x : spec_float) : spec_float :=
  match x with
  | S754_finite s m e =>
      binary_normalize F32.prec F32.emax (cond_Zopp s (Zpos m)) e s
  | _ => x
  end.

(** The condition compiled from the three flags of a unit: the closure
    assigned to [t.condition], [None] where it stays [nullptr]. *)
Definition unit_condition (requiresNight requiresPlayerBleed : bool)
    (minThreat : spec_float)
  : option (DialogueContext.t → NPCVoiceProfile.t → bool) :=
  if requiresNight || requiresPlayerBleed || fge minThreat (F64.of_Z 0) then
    Some (λ ctx _,
      if requiresNight && negb (DialogueContext.isNight ctx) then false
      else if requiresPlayerBleed && negb (DialogueContext.playerIsBleeding ctx)
      then false
      else if fge minThreat (F64.of_Z 0)
              && flt (DialogueContext.threatLevel01 ctx) (float_of_double minThreat)
      then false
      else true)
  else None.

(** The operations of [ThirdParty/JsonLite.h] that the loader calls. The
    library is not part of the repository: the loader is modelled over any
    implementation of these operations. *)
Module JsonLite.
Class Api (Value : Type) := {
  (** [Parse(content, root)]: [None] where it returns [false]. *)
  Parse : Str → option Value;
  IsArray : Value → bool;
  IsObject : Value → bool;
  Size : Value → nat;
  (** [value[i]] *)
  at_index : Value → nat → Value;
  HasMember : Value → Str → bool;
  (** [value["key"]] *)
  at_key : Value → Str → Value;
  GetString : Value → Str → Str → Str;
  GetNumber : Value → Str → spec_float → spec_float;
  GetBool : Value → Str → bool → bool
}.
End JsonLite.

Section Loader.
Context {Value : Type} `{!JsonLite.Api Value}.

(** The loop over an array of strings: the elements read with
    [GetString("", "")], the empty ones left out. *)
Definition string_items (arr : Value) : list Str :=
  filter (λ s, s ≠ [])
    (map (λ j, JsonLite.GetString (JsonLite.at_index arr j) [] [])
       (seq 0 (JsonLite.Size arr))).

(** The strings of the member [key] when it is an array; nothing
    otherwise. *)
Definition string_array (node : Value) (key : Str) : list Str :=
  if JsonLite.HasMember node key && JsonLite.IsArray (JsonLite.at_key node key)
  then string_items (JsonLite.at_key node key)
  else [].

(** One round of the loop over the units. The state is the list of the
    templates passed to [outSystem.AddTemplate] so far, in call order, and
    [outWarnings]. *)
Definition LoadUnit (path : Str) (kg : LorewayKGView.t)
    (st : list DialogueTemplate.t * list Str) (node : Value)
  : list DialogueTemplate.t * list Str :=
  let '(added, outWarnings) := st in
  if negb (JsonLite.IsObject node) then (added, outWarnings)
  else
    let id := JsonLite.GetString node (lit "id") [] in
    let fn := JsonLite.GetString node (lit "function") (lit "NeutralAmbient") in
    let rel := JsonLite.GetString node (lit "reliability") (lit "Unknown") in
    let tone := JsonLite.GetString node (lit "regionTone") (lit "ForestVillage") in
    let text := JsonLite.GetString node (lit "text") [] in
    if bool_decide (id = []) || bool_decide (text = []) then
      (added,
       outWarnings ++
         [lit "DialogueDataLoader: Skipping DialogueUnit with missing id/text in '"
            ++ path ++ lit "'"])
    else if ContainsForbiddenIPTokens text then
      (added,
       outWarnings ++
         [lit "DialogueDataLoader: Text for '" ++ id
            ++ lit "' failed IP guardrail (forbidden markers)."])
    else
      let t :=
        DialogueTemplate.mk id (ParseFunction fn) (ParseReliability rel)
          (ParseRegionTone tone)
          (string_array node (lit "requiredTabooIds"))
          (string_array node (lit "requiredEventIds"))
          (string_array node (lit "disallowedLocationIds"))
          (map ParseRole (string_array node (lit "allowedRoles")))
          text
          (float_of_double (JsonLite.GetNumber node (lit "weight") (F64.of_Z 1)))
          (unit_condition
             (JsonLite.GetBool node (lit "requiresNight") false)
             (JsonLite.GetBool node (lit "requiresPlayerBleeding") false)
             (JsonLite.GetNumber node (lit "minThreatLevel01") (F64.of_Z (-1)))) in
      (added ++ [t], ValidateKGLinks t kg outWarnings).

(** [LoadDialogueUnitsFromFile]. [file] is the content of the file at
    [path], [None] when the stream does not open. The result is the value
    returned, the templates passed to [outSystem.AddTemplate], in call
    order, and [outWarnings] after the call. *)
Definition LoadDialogueUnitsFromFile (file : option Str) (path : Str)
    (kg : LorewayKGView.t) (outWarnings : list Str)
  : bool * list DialogueTemplate.t * list Str :=
  match file with
  | None =>
      (false, [],
       outWarnings ++
         [lit "DialogueDataLoader: Failed to open file '" ++ path ++ lit "'"])
  | Some content =>
      let invalid :=
        (false, [],
         outWarnings ++
           [lit "DialogueDataLoader: File '" ++ path
              ++ lit "' is not a valid DialogueUnit array JSON."]) in
      match JsonLite.Parse content with
      | None => invalid
      | Some root =>
          if negb (JsonLite.IsArray root) then invalid
          else
            let '(added, outWarnings) :=
              foldl (LoadUnit path kg) ([], outWarnings)
                (map (JsonLite.at_index root) (seq 0 (JsonLite.Size root))) in
            (true, added, outWarnings)
      end
  end.
End Loader.

(** ** Notions used to state the properties, and scenarios *)

(** *** The replacement loop as a relation *)

(** The [while] loop of [ReplaceToken] as a relation: [loop_run token value
    text pos res] holds when the loop entered with the state [(text, pos)]
    leaves after finitely many rounds with the text [res]. *)
Inductive loop_run (token value : Str) : Str → nat → Str → Prop :=
  | loop_exit text pos :
      find text token pos = None →
      loop_run token value text pos text
  | loop_round text pos p res :
      find text token pos = Some p →
      loop_run token value (replace text p (length token) value)
        (p + length value) res →
      loop_run token value text pos res.

(** [ReplaceToken] with its guard. *)
Inductive ReplaceToken_run (text token value : Str) : Str → Prop :=
  | run_empty_token : token = [] → ReplaceToken_run text token value text
  | run_loop res :
      token ≠ [] → loop_run token value text 0 res →
      ReplaceToken_run text token value res.

(** [gap_1 ++ sep ++ gap_2 ++ sep ++ ... ++ gap_k ++ sep ++ rest]. *)
Definition interleave (sep : Str) (gaps : list Str) (rest : Str) : Str :=
  foldr (λ gap acc, gap ++ sep ++ acc) rest gaps.

(** The indices, in the original text, of the occurrences that are
    replaced: the ends of the gaps. *)
Fixpoint hit_positions (token : Str) (start : nat) (gaps : list Str) : list nat :=
  match gaps with
  | [] => []
  | gap :: gaps' =>
      (start + length gap)
        :: hit_positions token (start + length gap + length token) gaps'
  end.

(** *** Router, filter, selector, cooldown *)

Definition placeholders : list Str :=
  [ lit "{PLAYER_CALLSIGN}"; lit "{LOCAL_SPIRIT}"; lit "{TABOO}";
    lit "{PLACE}"; lit "{BODYSYMPTOM}" ].

Definition explicit_triggers : list Str :=
  [ lit "on_enemy_spotted"; lit "on_player_pain"; lit "on_player_surprised";
    lit "on_player_breaks_taboo"; lit "on_night_heartbeat";
    lit "on_enter_safehouse" ].

Definition tone_compatible (templateTone contextTone : RegionTone) : Prop :=
  templateTone = contextTone
  ∨ templateTone = ForestVillage ∨ contextTone = ForestVillage.

(** The conditions under which a template is a candidate. *)
Definition is_candidate (ctx : DialogueContext.t) (profile : NPCVoiceProfile.t)
    (fn : DialogueFunction) (T : DialogueTemplate.t) : Prop :=
  DialogueTemplate.function T = fn
  ∧ tone_compatible (DialogueTemplate.regionTone T) (DialogueContext.regionTone ctx)
  ∧ (DialogueTemplate.allowedRoles T = []
     ∨ NPCVoiceProfile.role profile ∈ DialogueTemplate.allowedRoles T)
  ∧ Forall (λ tb, tb ∈ DialogueContext.activeTabooIds ctx)
      (DialogueTemplate.requiredTabooIds T)
  ∧ Forall (λ ev, ev ∈ DialogueContext.recentEventIds ctx)
      (DialogueTemplate.requiredEventIds T)
  ∧ (DialogueContext.locationId ctx ≠ [] →
     Forall (λ loc, loc ≠ DialogueContext.locationId ctx)
       (DialogueTemplate.disallowedLocationIds T))
  ∧ match DialogueTemplate.condition T with
    | Some condition => condition ctx profile = true
    | None => True
    end.

#[global] Instance is_candidate_dec ctx profile fn T :
  Decision (is_candidate ctx profile fn T).
Proof.
  unfold is_candidate, tone_compatible.
  destruct (DialogueTemplate.condition T); apply _.
Defined.


(** The cooldown configured for a category: zero when the map has no entry. *)
Definition configured_cooldown (profile : NPCVoiceProfile.t)
    (fn : DialogueFunction) : spec_float :=
  default F32.zero (NPCVoiceProfile.cooldownSeconds profile !! fn).

(** *** Scenarios *)

(** Modelled from the spec: [AddTemplate], declared in [DialogueSystem.h]
    and called by the loader, is not in [DialogueSystem.cpp]; per the
    specification it appends the template to the pool. *)
Definition AddTemplate {R} (sys : DialogueSystem R) (t : DialogueTemplate.t)
  : DialogueSystem R :=
  mkDialogueSystem R (rng sys) (currentTimeSeconds sys) (npcProfiles sys)
    (templates sys ++ [t]) (emergentEvents sys) (lastFireTimestamps sys).

(** A scripted engine: Bernoulli outcomes are read off a list ([false] once
    it is used up); real and integer draws return the lower bound. *)
#[local] Instance scripted_engine : RandomEngine (list bool) := {|
  uniform_int a _ g := (a, g);
  uniform_real a _ g := (a, g);
  bernoulli _ g := match g with [] => (false, []) | c :: g' => (c, g') end
|}.

#[local] Instance elements_first : UnorderedSetOrder :=
  λ X, match elements X with x :: _ => x | [] => [] end.

(** The profile and the context of the demo [main]. *)
Definition oldNeighbor : NPCVoiceProfile.t :=
  NPCVoiceProfile.mk (lit "NPC_OLD_NEIGHBOR") (lit "Old Neighbor") Villager
    (F32.ratio 4 10) (F32.ratio 9 10) F32.zero (F32.ratio 5 10)
    (F32.ratio 3 10) (F32.ratio 5 10) (F32.ratio 8 10)
    (lit "rural_polish_like") [lit "missing_children"; lit "forest_debts"]
    NPCVoiceProfile.default_cooldownSeconds.

Definition demo_ctx : DialogueContext.t :=
  DialogueContext.mk ForestVillage (F32.ratio 5 10) false true false true true
    false (lit "PLC_VILLAGE_ASHDITCH")
    {[ lit "TABS_WHISTLE_AT_NIGHT" ]} {[ lit "EV_WELL_COLLAPSE_ASHDITCH" ]} ∅.

Definition demo_system : DialogueSystem (list bool) :=
  RegisterNPCProfile (SetCurrentTimeSeconds (DialogueSystem_new []) (F64.of_Z 0))
    oldNeighbor.

(** The state of the demo after the heartbeat line. *)
Definition demo_after_heartbeat : DialogueSystem (list bool) :=
  match GenerateLine demo_system (lit "NPC_OLD_NEIGHBOR")
          (lit "on_night_heartbeat") demo_ctx with
  | inr (_, sys) => sys
  | inl _ => demo_system
  end.

(** A calm daytime context with nothing active. *)
Definition calm_ctx : DialogueContext.t :=
  DialogueContext.mk ForestVillage F32.zero false false false false false
    false [] ∅ ∅ ∅.

(** A speaker of few words. *)
Definition terse (superstition : spec_float) : NPCVoiceProfile.t :=
  NPCVoiceProfile.mk (lit "NPC_TERSE") (lit "Terse") Villager
    (F32.ratio 1 10) superstition F32.zero F32.zero F32.zero F32.zero F32.zero
    [] [] NPCVoiceProfile.default_cooldownSeconds.

(** A surprise line whose text opens with a space and has no other. *)
Definition leading_space_template : DialogueTemplate.t :=
  DialogueTemplate.mk (lit "SURPRISE_FLOORBOARDS") Surprise Unknown ForestVillage
    [] [] [] []
    (lit " Somethingscratchedunderthefloorboardsallnightlongandnobodydaredtolookdownthere.")
    (F32.of_Z 1) None.

(** A surprise line of weight zero. *)
Definition weightless_template : DialogueTemplate.t :=
  DialogueTemplate.mk (lit "SURPRISE_WHAT") Surprise Unknown ForestVillage
    [] [] [] [] (lit "What was that?") F32.zero None.

Definition system_with (t : DialogueTemplate.t) (profile : NPCVoiceProfile.t)
    (script : list bool) : DialogueSystem (list bool) :=
  RegisterNPCProfile (AddTemplate (DialogueSystem_new script) t) profile.

(** *** Ledger and style pass *)

(** The registry is keyed by the identifier of the profile it holds: the
    invariant of [RegisterNPCProfile], the only writer of the registry. *)
Definition registry_keyed {R} (sys : DialogueSystem R) : Prop :=
  ∀ npcId profile,
    npcProfiles sys !! npcId = Some profile →
    NPCVoiceProfile.npcId profile = npcId.

(** The call is turned down before a template is chosen. *)
Definition rejected {R} (sys : DialogueSystem R) (npcId triggerTag : Str)
    (ctx : DialogueContext.t) : Prop :=
  GetNPCProfile sys npcId = None
  ∨ ∃ profile,
      GetNPCProfile sys npcId = Some profile
      ∧ (CanFire sys profile (MapTriggerToFunction triggerTag ctx profile) = false
         ∨ CollectCandidates sys ctx profile
             (MapTriggerToFunction triggerTag ctx profile) = []).

(** [i] is the highest index [<= pos] of [line] that holds [c]. *)
Definition last_char_at (line : Str) (c : ascii) (pos i : nat) : Prop :=
  i ≤ pos ∧ line !! i = Some c ∧ ∀ j, i < j ≤ pos → line !! j ≠ Some c.

(** The guarantee of [std::uniform_int_distribution]: a draw from [a, b]
    lies in [a, b]. *)
Definition draws_in_range (R : Type) `{!RandomEngine R} : Prop :=
  ∀ (a b : Z) (g : R), (a ≤ b)%Z → (a ≤ (uniform_int a b g).1 ≤ b)%Z.

(** *** States of the engine *)

Section Api.
Context {R : Type} `{!RandomEngine R} `{!UnorderedSetOrder}.

(** The states that the public operations of [DialogueSystem] lead to from
    the constructor. A call of [GenerateLine] that runs into undefined
    behaviour leads nowhere. *)
Inductive reachable : DialogueSystem R → Prop :=
  | reach_new g : reachable (DialogueSystem_new g)
  | reach_set_time sys t :
      reachable sys → reachable (SetCurrentTimeSeconds sys t)
  | reach_register sys profile :
      reachable sys → reachable (RegisterNPCProfile sys profile)
  | reach_notify sys eventId regionId severity01 :
      reachable sys → reachable (NotifyEvent sys eventId regionId severity01)
  | reach_generate sys npcId triggerTag ctx line sys' :
      reachable sys →
      GenerateLine sys npcId triggerTag ctx = inr (line, sys') →
      reachable sys'.
End Api.

(** Every entry of the ledger belongs to a registered NPC. *)
Definition ledger_registered {R} (sys : DialogueSystem R) : Prop :=
  ∀ npcId fn,
    is_Some (lastFireTimestamps sys !! (npcId, fn)) →
    is_Some (npcProfiles sys !! npcId).

(** *** Texts and substitution values *)

(** A text that is not empty and does not open with a space. *)
Definition opens_with_word (s : Str) : Prop :=
  match s with
  | [] => False
  | c :: _ => c ≠ " "%char
  end.

#[global] Instance opens_with_word_dec s : Decision (opens_with_word s).
Proof. destruct s; apply _. Defined.

(** A value that cannot be part of an occurrence of [token]: it holds
    neither the first nor the last character of the token, and it holds a
    character that the token does not hold. *)
Definition value_fresh (token value : Str) : Prop :=
  match head token, list.last token with
  | Some a, Some z =>
      (a ∉ value) ∧ (z ∉ value) ∧ Exists (λ c, c ∉ token) value
  | _, _ => False
  end.

#[global] Instance value_fresh_dec token value : Decision (value_fresh token value).
Proof. unfold value_fresh. destruct (head token), (list.last token); apply _. Defined.

(** The values that the five token functions can return. *)
Definition callsigns : list Str :=
  [ lit "citizen"; lit "strannik"; lit "soul"; lit "you" ].
Definition spirit_epithets : list Str :=
  [ lit "the bent one"; lit "the stairwell listener";
    lit "the thing in the ducts"; lit "the one beyond the fence" ].
Definition taboo_phrases : list Str :=
  [ lit "the old rules"; lit "no whistling after dark";
    lit "never leave a bucket mouth‑down"; lit "the village law" ].
Definition place_names : list Str :=
  [ lit "Ash Ditch"; lit "Block A stairwell"; lit "this place" ].
Definition body_symptoms : list Str :=
  [ lit "bleeding"; lit "shaking"; lit "breathing" ].
Definition token_values : list Str :=
  callsigns ++ spirit_epithets ++ taboo_phrases ++ place_names ++ body_symptoms.

(** The strings that the style pass can add to a line. *)
Definition style_strings : list Str :=
  [ lit "..."; lit "According to regulations, "; lit "Just... don't ask.";
    [" "%char] ] ++ tails.

(** Every text of the pool is not empty and does not open with a space. *)
Definition pool_opens_with_words {R} (sys : DialogueSystem R) : Prop :=
  Forall (λ t, opens_with_word (DialogueTemplate.text t)) (templates sys).

(** Whatever the candidates, their weights sum to at most zero, so that
    the selector draws nothing, or to a bound that the distribution
    allows. *)
Definition pool_totals_allowed {R} (sys : DialogueSystem R) : Prop :=
  ∀ ctx profile fn,
    fle (sum_weights F32.zero (CollectCandidates sys ctx profile fn)) F32.zero
      = true
    ∨ uniform_real_allowed F32.zero
        (sum_weights F32.zero (CollectCandidates sys ctx profile fn)) = true.

(** *** The loader *)

(** The enumerators as they are spelled in the source. *)
Definition function_name (f : DialogueFunction) : Str :=
  match f with
  | NeutralAmbient => lit "NeutralAmbient" | Dread => lit "Dread"
  | Misdirection => lit "Misdirection" | RitualHint => lit "RitualHint"
  | Rumor => lit "Rumor" | Bureaucratic => lit "Bureaucratic"
  | ThreatBark => lit "ThreatBark" | Pain => lit "Pain"
  | Surprise => lit "Surprise"
  end.

Definition reliability_name (r : ReliabilityTag) : Str :=
  match r with
  | Unknown => lit "Unknown" | Truthful => lit "Truthful"
  | Partial => lit "Partial" | KnownFalse => lit "KnownFalse"
  end.

Definition tone_name (tone : RegionTone) : Str :=
  match tone with
  | ForestVillage => lit "ForestVillage" | SovietApartment => lit "SovietApartment"
  | IndustrialBlock => lit "IndustrialBlock" | BorderOutpost => lit "BorderOutpost"
  end.

Definition role_name (role : SpeakerSocialRole) : Str :=
  match role with
  | Villager => lit "Villager" | Bureaucrat => lit "Bureaucrat"
  | Priest => lit "Priest" | Smuggler => lit "Smuggler"
  | Soldier => lit "Soldier" | Doctor => lit "Doctor" | Hermit => lit "Hermit"
  end.

(** What the loader checks before it registers a unit. *)
Definition accepted_unit (t : DialogueTemplate.t) : Prop :=
  DialogueTemplate.id t ≠ []
  ∧ DialogueTemplate.text t ≠ []
  ∧ ContainsForbiddenIPTokens (DialogueTemplate.text t) = false.

(** A document tree for the scenarios, with the accessors read the usual
    way: a missing member or a member of another type gives the default. *)
#[local] Unset Elimination Schemes.
Inductive Json :=
  | JNull
  | JBool (b : bool)
  | JNumber (x : spec_float)
  | JString (s : Str)
  | JArray (items : list Json)
  | JObject (members : list (Str * Json)).
#[local] Set Elimination Schemes.

Definition json_member (v : Json) (key : Str) : option Json :=
  match v with
  | JObject members => (λ m, m.2.2) <$> list_find (λ m, m.1 = key) members
  | _ => None
  end.

Definition json_at (v : Json) (key : Str) : Json :=
  if decide (key = []) then v else default JNull (json_member v key).

(** The units of the scenario: one that loads, one whose text carries a
    trademark sign, one without an identifier, and a stray number. *)
Definition demo_units : Json :=
  JArray
    [ JObject [ (lit "id", JString (lit "UNIT_STAY_INSIDE"));
                (lit "function", JString (lit "DREAD"));
                (lit "text", JString (lit "Stay inside, {PLAYER_CALLSIGN}."));
                (lit "requiredTabooIds",
                 JArray [JString (lit "TABS_WHISTLE_AT_NIGHT"); JString [];
                         JString (lit "TABS_UNHEARD_OF")]);
                (lit "requiresNight", JBool true) ];
      JObject [ (lit "id", JString (lit "UNIT_BRANDED"));
                (lit "text", JString (lit "Drink Kvass™ every day.")) ];
      JObject [ (lit "text", JString (lit "Nobody said this.")) ];
      JNumber (F64.of_Z 7) ].

(** Every content parses to the units of the scenario. *)
#[local] Instance canned_json : JsonLite.Api Json := {|
  JsonLite.Parse _ := Some demo_units;
  JsonLite.IsArray v := match v with JArray _ => true | _ => false end;
  JsonLite.IsObject v := match v with JObject _ => true | _ => false end;
  JsonLite.Size v := match v with JArray items => length items | _ => 0 end;
  JsonLite.at_index v i :=
    match v with JArray items => default JNull (items !! i) | _ => JNull end;
  JsonLite.HasMember v key := bool_decide (is_Some (json_member v key));
  JsonLite.at_key v key := default JNull (json_member v key);
  JsonLite.GetString v key d :=
    match json_at v key with JString s => s | _ => d end;
  JsonLite.GetNumber v key d :=
    match json_at v key with JNumber x => x | _ => d end;
  JsonLite.GetBool v key d :=
    match json_at v key with JBool b => b | _ => d end
|}.

Definition demo_kg : LorewayKGView.t :=
  LorewayKGView.mk ∅ ∅ {[ lit "EV_WELL_COLLAPSE_ASHDITCH" ]}
    {[ lit "TABS_WHISTLE_AT_NIGHT" ]} ∅.

(** The template that the first unit of the scenario compiles to. *)
Definition demo_unit : DialogueTemplate.t :=
  DialogueTemplate.mk (lit "UNIT_STAY_INSIDE") Dread Unknown ForestVillage
    [lit "TABS_WHISTLE_AT_NIGHT"; lit "TABS_UNHEARD_OF"] [] [] []
    (lit "Stay inside, {PLAYER_CALLSIGN}.") (F32.of_Z 1)
    (unit_condition true false (F64.of_Z (-1))).

(** A rumor with four of the placeholders. *)
Definition demo_rumor : DialogueTemplate.t :=
  DialogueTemplate.mk (lit "RUMOR_STAY_OUT") Rumor Unknown ForestVillage [] [] [] []
    (lit "{PLAYER_CALLSIGN}, stay out of {PLACE}: {TABOO}. {PLACE} keeps {LOCAL_SPIRIT}.")
    (F32.of_Z 1) None.

(** The dread line of the forest with a weight that is not a number. *)
Definition t1_nan : DialogueTemplate.t :=
  DialogueTemplate.mk (lit "ONB_FOREST_DREAD_01") Dread Unknown ForestVillage
    [] [] [] [Villager; Hermit]
    (lit "The trees remember what the village forgets.") S754_nan None.

(** A speaker with every slider at rest. *)
Definition plain : NPCVoiceProfile.t :=
  NPCVoiceProfile.mk (lit "NPC_PLAIN") (lit "Plain") Villager
    (F32.ratio 5 10) F32.zero F32.zero F32.zero F32.zero F32.zero F32.zero
    [] [] NPCVoiceProfile.default_cooldownSeconds.

(** * Properties *)

(** ** Strings: searching *)

Lemma occurs_cons token b s :
  occurs token (b :: s) ↔ starts_with token (b :: s) = true ∨ occurs token s.
Proof.
  split.
  - intros (pre & post & Heq). destruct pre as [|a pre]; simpl in Heq.
    + left. apply starts_with_spec. eauto.
    + right. injection Heq as _ ->. exists pre, post. reflexivity.
  - intros [Hp | (pre & post & ->)].
    + apply starts_with_spec in Hp as [post Hp]. exists [], post. exact Hp.
    + exists (b :: pre), post. reflexivity.
Qed.

Lemma occurs_nil token : occurs token [] ↔ token = [].
Proof.
  split.
  - intros (pre & post & Heq). symmetry in Heq.
    apply app_eq_nil in Heq as [_ Heq]. apply app_eq_nil in Heq as [-> _].
    reflexivity.
  - intros ->. exists [], []. reflexivity.
Qed.

Lemma find_first_None token s : find_first token s = None ↔ ¬ occurs token s.
Proof.
  induction s as [|b s IH]; simpl.
  - rewrite occurs_nil. destruct token; simpl; naive_solver.
  - rewrite occurs_cons. destruct (starts_with token (b :: s)) eqn:Hp.
    + split; [discriminate | intros Hn; destruct Hn; left; reflexivity].
    + rewrite fmap_None, IH. split; [intros Hn [?|?]; done | tauto].
Qed.

Lemma find_first_Some token s i :
  find_first token s = Some i →
  ∃ post, s = take i s ++ token ++ post ∧ drop (i + length token) s = post.
Proof.
  revert i. induction s as [|b s IH]; intros i; simpl.
  - destruct (starts_with token []) eqn:Hp; [|discriminate].
    intros [= <-]. apply starts_with_spec in Hp as [post Hp].
    exists post. split; [exact Hp|]. rewrite Hp at 1.
    simpl. rewrite drop_app_length. reflexivity.
  - destruct (starts_with token (b :: s)) eqn:Hp.
    + intros [= <-]. apply starts_with_spec in Hp as [post Hp].
      exists post. split; [exact Hp|]. rewrite Hp.
      simpl. rewrite drop_app_length. reflexivity.
    + destruct (find_first token s) as [j|] eqn:Hf; [|discriminate].
      intros [= <-]. destruct (IH j eq_refl) as (post & Heq & Hdrop).
      exists post. simpl. split; [congruence | exact Hdrop].
Qed.

(** The index returned is the lowest: the token does not occur in the text
    cut just before the end of the occurrence that was found. *)
Lemma find_first_lowest token s i :
  find_first token s = Some i → token ≠ [] →
  ¬ occurs token (take (i + length token - 1) s).
Proof.
  revert i. induction s as [|b s IH]; intros i; simpl.
  - intros _ Hne. rewrite take_nil, occurs_nil. exact Hne.
  - destruct (starts_with token (b :: s)) eqn:Hp.
    + intros [= <-] Hne (pre & post & Heq).
      destruct token as [|c tk]; [done|].
      apply (f_equal length) in Heq. rewrite !length_app, length_take in Heq.
      simpl in Heq. lia.
    + destruct (find_first token s) as [j|] eqn:Hf; [|discriminate].
      intros [= <-] Hne. specialize (IH j eq_refl Hne).
      assert (0 < length token) as Hlen by (destruct token; [done | simpl; lia]).
      replace (S j + length token - 1) with (S (j + length token - 1)) by lia.
      rewrite firstn_cons, occurs_cons. intros [Hs | Ho]; [|done].
      apply starts_with_spec in Hs as [post Hs].
      assert (starts_with token (b :: s) = true) as Hs'; [|congruence].
      apply starts_with_spec.
      exists (post ++ drop (j + length token - 1) s).
      rewrite <- (take_drop (j + length token - 1) s) at 1.
      rewrite app_comm_cons, Hs. rewrite <- !app_assoc. reflexivity.
Qed.

Lemma find_at_0 text token : find text token 0 = find_first token text.
Proof.
  unfold find. rewrite decide_True by lia. rewrite drop_0.
  destruct (find_first token text); reflexivity.
Qed.

Lemma find_from text token pos :
  pos ≤ length text →
  find text token pos = (λ i, pos + i) <$> find_first token (drop pos text).
Proof. intros Hle. unfold find. rewrite decide_True by done. reflexivity. Qed.

(** ** [ReplaceToken]: the loop *)

Lemma ReplaceToken_loop_unfold' c tk value text pos :
  ReplaceToken_loop c tk value text pos =
  match find text (c :: tk) pos with
  | None => text
  | Some p =>
      ReplaceToken_loop c tk value
        (replace text p (length (c :: tk)) value) (p + length value)
  end.
Proof.
  funelim (ReplaceToken_loop c tk value text pos).
  - rewrite Hf. reflexivity.
  - rewrite e. reflexivity.
Qed.

Lemma replace_take text p n value :
  p ≤ length text →
  take (p + length value) (replace text p n value) = take p text ++ value.
Proof.
  intros Hp. unfold replace. rewrite app_assoc.
  apply take_app_length'. rewrite length_app, length_take_le; done.
Qed.

Lemma replace_drop text p n value :
  p ≤ length text →
  drop (p + length value) (replace text p n value) = drop (p + n) text.
Proof.
  intros Hp. unfold replace. rewrite app_assoc.
  apply drop_app_length'. rewrite length_app, length_take_le; done.
Qed.

(** What lies before the scan position is never looked at again: the loop
    started at [pos] is the loop started at [0] on the rest of the text. *)
Lemma ReplaceToken_loop_shift c tk value text pos :
  pos ≤ length text →
  ReplaceToken_loop c tk value text pos =
  take pos text ++ ReplaceToken_loop c tk value (drop pos text) 0.
Proof.
  remember (length text - pos) as m eqn:Hm. revert text pos Hm.
  induction m as [m IH] using lt_wf_ind. intros text pos -> Hle.
  rewrite (ReplaceToken_loop_unfold' _ _ _ text pos),
    (ReplaceToken_loop_unfold' _ _ _ (drop pos text) 0).
  rewrite find_at_0, (find_from _ _ _ Hle).
  destruct (find_first (c :: tk) (drop pos text)) as [i|] eqn:Hf; simpl fmap; cbv beta iota.
  - pose proof (find_first_bounds _ _ _ Hf) as Hb.
    rewrite length_drop in Hb.
    assert (0 < length (c :: tk)) as Hn by (simpl; lia).
    remember (length (c :: tk)) as n eqn:Hlen. clear Hlen.
    assert (∀ text' pos',
              length text' - pos' < length text - pos → pos' ≤ length text' →
              ReplaceToken_loop c tk value text' pos' =
              take pos' text' ++ ReplaceToken_loop c tk value (drop pos' text') 0)
      as IH' by (intros; eapply IH; eauto).
    rewrite (IH' (replace text (pos + i) n value) (pos + i + length value)).
    2, 3: unfold replace; rewrite !length_app, length_take, length_drop; lia.
    rewrite (IH' (replace (drop pos text) i n value) (i + length value)).
    2, 3: unfold replace; rewrite !length_app, length_take, !length_drop; lia.
    rewrite (replace_take text), (replace_drop text) by lia.
    rewrite (replace_take (drop pos text)), (replace_drop (drop pos text))
      by (rewrite length_drop; lia).
    rewrite drop_drop, <- (take_take_drop text pos i).
    rewrite <- !app_assoc, Nat.add_assoc. reflexivity.
  - rewrite take_drop. reflexivity.
Qed.

(** One round of the loop, seen from the start of the text. *)
Lemma ReplaceToken_loop_0 c tk value s :
  ReplaceToken_loop c tk value s 0 =
  match find_first (c :: tk) s with
  | None => s
  | Some i =>
      take i s ++ value
        ++ ReplaceToken_loop c tk value (drop (i + length (c :: tk)) s) 0
  end.
Proof.
  rewrite ReplaceToken_loop_unfold', find_at_0.
  destruct (find_first (c :: tk) s) as [i|] eqn:Hf; [|reflexivity].
  pose proof (find_first_bounds _ _ _ Hf) as Hb.
  rewrite ReplaceToken_loop_shift
    by (unfold replace; rewrite !length_app, length_take, length_drop; lia).
  rewrite replace_take, replace_drop by lia.
  rewrite <- app_assoc. reflexivity.
Qed.

Lemma loop_run_ReplaceToken_loop c tk value text pos :
  loop_run (c :: tk) value text pos (ReplaceToken_loop c tk value text pos).
Proof.
  funelim (ReplaceToken_loop c tk value text pos).
  - eapply loop_round; eauto.
  - apply loop_exit. assumption.
Qed.

Lemma loop_run_deterministic token value text pos res1 res2 :
  loop_run token value text pos res1 →
  loop_run token value text pos res2 → res1 = res2.
Proof.
  intros H1. revert res2.
  induction H1 as [text pos Hf | text pos p res Hf _ IH]; intros res2 H2.
  - inversion H2; subst; [reflexivity | congruence].
  - inversion H2 as [? ? Hf2 | ? ? p2 ? Hf2 Hrun]; subst; [congruence|].
    rewrite Hf in Hf2. injection Hf2 as <-. apply IH. exact Hrun.
Qed.

(** Without the guard the loop need not stop: for an empty token and an
    empty value every round leaves the state as it was. *)
Lemma loop_run_empty_token_diverges text pos res :
  pos ≤ length text → ¬ loop_run [] [] text pos res.
Proof.
  intros Hle Hrun. remember [] as token eqn:Htok in Hrun at 1.
  remember [] as value eqn:Hval in Hrun.
  induction Hrun as [text pos Hf | text pos p res Hf _ IH]; subst.
  - rewrite (find_from _ _ _ Hle) in Hf. simpl in Hf.
    destruct (drop pos text); discriminate.
  - rewrite (find_from _ _ _ Hle) in Hf.
    assert (p = pos) as ->.
    { destruct (drop pos text); simpl in Hf; injection Hf as <-; lia. }
    unfold replace in IH. simpl in IH.
    rewrite !Nat.add_0_r, take_drop in IH. apply IH; done.
Qed.

(** ** [ReplaceToken]: the occurrences that are replaced *)

Lemma ReplaceToken_loop_interleave c tk value s :
  ∃ gaps rest,
    s = interleave (c :: tk) gaps rest ∧
    ReplaceToken_loop c tk value s 0 = interleave value gaps rest ∧
    Forall (λ gap, ¬ occurs (c :: tk) (gap ++ take (length tk) (c :: tk))) gaps ∧
    ¬ occurs (c :: tk) rest.
Proof.
  remember (length s) as m eqn:Hm. revert s Hm.
  induction m as [m IH] using lt_wf_ind. intros s ->.
  rewrite ReplaceToken_loop_0.
  destruct (find_first (c :: tk) s) as [i|] eqn:Hf.
  - pose proof (find_first_bounds _ _ _ Hf) as Hb.
    destruct (find_first_Some _ _ _ Hf) as (post & Heq & Hdrop).
    pose proof (find_first_lowest _ _ _ Hf) as Hlow.
    rewrite Hdrop.
    destruct (IH (length post)) with (s := post)
      as (gaps & rest & Hs & Hres & Hgaps & Hrest); [|reflexivity|].
    { rewrite <- Hdrop, length_drop. simpl in *. lia. }
    exists (take i s :: gaps), rest. simpl. repeat split.
    + rewrite <- Hs. exact Heq.
    + rewrite Hres. reflexivity.
    + constructor; [|exact Hgaps].
      intros Ho. apply Hlow; [done|].
      rewrite Heq at 1.
      replace (i + length (c :: tk) - 1) with (length (take i s) + length tk)
        by (rewrite length_take_le; simpl in *; lia).
      rewrite take_app_add, (take_app_le (c :: tk)) by (simpl; lia).
      exact Ho.
    + exact Hrest.
  - exists [], s. simpl. repeat split; [constructor|].
    apply find_first_None. exact Hf.
Qed.

Lemma occurs_at_occurs token text i : occurs_at token text i → occurs token text.
Proof. intros (pre & post & Heq & _). exists pre, post. exact Heq. Qed.

Lemma occurs_at_left token A B i :
  occurs_at token (A ++ B) i → i + length token ≤ length A → occurs token A.
Proof.
  intros (pre & post & Heq & Hlen) Hle.
  exists pre, (take (length A - (i + length token)) post).
  assert (A = take (length A) ((pre ++ token) ++ post)) as HA
    by (rewrite <- app_assoc, <- Heq, take_app_length; reflexivity).
  rewrite take_app_ge in HA by (rewrite length_app; lia).
  rewrite length_app, Hlen, <- app_assoc in HA. exact HA.
Qed.

Lemma occurs_at_right token A B i :
  occurs_at token (A ++ B) i → length A ≤ i →
  occurs_at token B (i - length A).
Proof.
  intros (pre & post & Heq & Hlen) Hle.
  exists (drop (length A) pre), post. split.
  - assert (B = drop (length A) (pre ++ token ++ post)) as HB
      by (rewrite <- Heq, drop_app_length; reflexivity).
    rewrite drop_app_le in HB by lia. exact HB.
  - rewrite length_drop. lia.
Qed.

Lemma hit_positions_occur token gaps rest start h :
  h ∈ hit_positions token start gaps →
  start ≤ h ∧ occurs_at token (interleave token gaps rest) (h - start).
Proof.
  revert start. induction gaps as [|gap gaps IH]; intros start; simpl.
  - intros Hin. apply elem_of_nil in Hin. done.
  - intros Hin. apply elem_of_cons in Hin as [-> | Hin].
    + split; [lia|]. exists gap, (interleave token gaps rest).
      split; [reflexivity | lia].
    + apply IH in Hin as [Hle (pre & post & Heq & Hlen)].
      split; [lia|]. exists (gap ++ token ++ pre), post. split.
      * change (interleave token (gap :: gaps) rest)
          with (gap ++ token ++ interleave token gaps rest).
        rewrite Heq, <- !app_assoc. reflexivity.
      * rewrite !length_app. lia.
Qed.

(** Every occurrence of the token in the original text starts less than a
    token length away from an occurrence that is replaced: it is that
    occurrence, or it overlaps it. *)
Lemma hit_positions_cover token gaps rest start i :
  token ≠ [] →
  Forall (λ gap, ¬ occurs token (gap ++ take (length token - 1) token)) gaps →
  ¬ occurs token rest →
  occurs_at token (interleave token gaps rest) i →
  ∃ h, h ∈ hit_positions token start gaps
       ∧ h < start + i + length token ∧ start + i < h + length token.
Proof.
  intros Hne Hgaps Hrest. revert start i.
  assert (0 < length token) as Hlen by (destruct token; [done | simpl; lia]).
  induction Hgaps as [|gap gaps Hgap _ IH]; intros start i; simpl.
  - intros Hocc. destruct Hrest. eapply occurs_at_occurs. exact Hocc.
  - intros Hocc.
    destruct (decide (i < length gap)) as [Hin | Hout].
    + exfalso. apply Hgap.
      rewrite <- (take_drop (length token - 1) token) in Hocc at 2.
      rewrite <- app_assoc, app_assoc in Hocc.
      apply (occurs_at_left _ _ _ _ Hocc).
      rewrite length_app, length_take. lia.
    + destruct (decide (i < length gap + length token)) as [Hhit | Hlater].
      * exists (start + length gap). split; [left|lia].
      * rewrite app_assoc in Hocc.
        apply occurs_at_right in Hocc; [|rewrite length_app; lia].
        destruct (IH (start + length gap + length token)
                    (i - length (gap ++ token)) Hocc) as (h & Hh & Hlo & Hhi).
        rewrite length_app in Hlo, Hhi.
        exists h. split; [right; exact Hh | lia].
Qed.

Lemma ReplaceToken_no_occurrence text token value :
  ¬ occurs token text → ReplaceToken text token value = text.
Proof.
  intros Hno. destruct token as [|c tk]; [reflexivity|]. simpl.
  rewrite ReplaceToken_loop_0.
  apply find_first_None in Hno. rewrite Hno. reflexivity.
Qed.

Lemma ReplaceToken_single c tk value :
  ReplaceToken (c :: tk) (c :: tk) value = value.
Proof.
  simpl. rewrite ReplaceToken_loop_0.
  assert (find_first (c :: tk) (c :: tk) = Some 0) as ->.
  { simpl. rewrite bool_decide_eq_true_2 by done.
    replace (starts_with tk tk) with true; [reflexivity|].
    symmetry. apply starts_with_spec. exists []. rewrite app_nil_r. reflexivity. }
  rewrite take_0, Nat.add_0_l, drop_all.
  rewrite ReplaceToken_loop_0. simpl. rewrite app_nil_r. reflexivity.
Qed.

(** C6 as stated, at the empty token: the empty token occurs in ["ab"] and
    the text is returned as it was; the text [""] is one occurrence of the
    empty token and no expansion is produced. *)
Lemma ReplaceToken_empty_token_counterexample :
  occurs [] (lit "ab")
  ∧ ReplaceToken (lit "ab") [] (lit "x") = lit "ab"
  ∧ ReplaceToken [] [] (lit "x") ≠ lit "x".
Proof.
  split; [|split].
  - exists [], (lit "ab"). reflexivity.
  - reflexivity.
  - discriminate.
Qed.

(** C6 (amended). [ReplaceToken] stops on every text, token and value: the
    loop leaves after finitely many rounds with exactly one result, the one
    the function computes. With an empty token the text is returned
    unchanged. With a token that is not empty, a text equal to the token
    becomes exactly the value, also when the value contains the token; and
    the text is [gap_1 token gap_2 token ... gap_k token rest] with the
    result [gap_1 value gap_2 value ... gap_k value rest], where the tokens
    shown are occurrences of the token in the text, and every occurrence of
    the token in the text is one of them or overlaps one of them. *)
Theorem ReplaceToken_terminates_and_replaces (text token value : Str) :
  (ReplaceToken_run text token value (ReplaceToken text token value)
   ∧ ∀ res, ReplaceToken_run text token value res →
            res = ReplaceToken text token value)
  ∧ (token = [] → ReplaceToken text token value = text)
  ∧ (token ≠ [] →
     ReplaceToken token token value = value
     ∧ ∃ gaps rest,
         text = interleave token gaps rest
         ∧ ReplaceToken text token value = interleave value gaps rest
         ∧ (∀ h, h ∈ hit_positions token 0 gaps → occurs_at token text h)
         ∧ (∀ i, occurs_at token text i →
                 ∃ h, h ∈ hit_positions token 0 gaps
                      ∧ h < i + length token ∧ i < h + length token)).
Proof.
  destruct token as [|c tk].
  - split; [split|split]; [| | reflexivity | done].
    + apply run_empty_token. reflexivity.
    + intros res Hrun. destruct Hrun as [_ | res Hne _]; [reflexivity | done].
  - split; [split|split]; [| | discriminate |].
    + apply run_loop; [discriminate|]. apply loop_run_ReplaceToken_loop.
    + intros res Hrun. destruct Hrun as [Hnil | res _ Hrun]; [discriminate|].
      eapply loop_run_deterministic; [exact Hrun|].
      apply loop_run_ReplaceToken_loop.
    + intros Hne. split; [apply ReplaceToken_single|].
      destruct (ReplaceToken_loop_interleave c tk value text)
        as (gaps & rest & Hs & Hres & Hgaps & Hrest).
      exists gaps, rest. split; [exact Hs|]. split; [exact Hres|]. split.
      * intros h Hh. rewrite Hs at 1.
        apply (hit_positions_occur _ _ rest) in Hh as [_ Hocc].
        rewrite Nat.sub_0_r in Hocc. exact Hocc.
      * intros i Hocc. rewrite Hs in Hocc.
        apply (hit_positions_cover (c :: tk) gaps rest 0 i Hne); [|exact Hrest|exact Hocc].
        replace (length (c :: tk) - 1) with (length tk) by (simpl; lia).
        exact Hgaps.
Qed.

(** The token ["{X}"] replaced by ["a{X}b"] in the text ["{X}"]. *)
Lemma ReplaceToken_terminates_and_replaces_witness :
  lit "{X}" ≠ []
  ∧ ReplaceToken (lit "{X}") (lit "{X}") (lit "a{X}b") = lit "a{X}b".
Proof.
  split; [discriminate|].
  apply (ReplaceToken_terminates_and_replaces (lit "{X}") (lit "{X}") (lit "a{X}b")).
  discriminate.
Defined.

(** ** Token substitution *)

Section Substitution.
Context `{!UnorderedSetOrder}.

(** C9. A template text in which none of the five placeholders occurs
    leaves the substitution phase unchanged, for every context and
    profile. *)
Theorem SubstituteTokens_token_free (t : DialogueTemplate.t)
    (ctx : DialogueContext.t) (profile : NPCVoiceProfile.t) :
  Forall (λ token, ¬ occurs token (DialogueTemplate.text t)) placeholders →
  SubstituteTokens t ctx profile = DialogueTemplate.text t.
Proof.
  intros Hfree. unfold SubstituteTokens. unfold placeholders in Hfree.
  repeat match goal with
         | Hall : Forall _ (_ :: _) |- _ =>
             apply Forall_cons_1 in Hall as [Hno Hall];
             rewrite (ReplaceToken_no_occurrence _ _ _ Hno); clear Hno
         end.
  reflexivity.
Qed.
End Substitution.

(** ** Floating-point comparisons *)

Lemma SFcompare_Lt_Gt x y : SFcompare x y = Some Lt → SFcompare y x = Some Gt.
Proof.
  destruct x as [sx|sx| |sx mx ex], y as [sy|sy| |sy my ey]; simpl;
    try discriminate; try (destruct sx; discriminate);
    try (destruct sy; discriminate);
    try (destruct sx, sy; (discriminate || reflexivity)).
  destruct sx, sy; try discriminate; try reflexivity;
    rewrite (Z.compare_antisym ey ex);
    destruct (ey ?= ex)%Z; simpl; try discriminate; try reflexivity;
    change (Pos.compare_cont Eq my mx) with (my ?= mx)%positive;
    change (Pos.compare_cont Eq mx my) with (mx ?= my)%positive;
    rewrite (Pos.compare_antisym mx my);
    destruct (mx ?= my)%positive; simpl; (discriminate || reflexivity).
Qed.

Lemma flt_not_fge x y : flt x y = true → fge x y = false.
Proof.
  unfold flt, fge, SFltb, SFleb. intros Hlt.
  destruct (SFcompare x y) as [[]|] eqn:Hc; try discriminate.
  rewrite (SFcompare_Lt_Gt _ _ Hc). reflexivity.
Qed.


(** ** Trigger router *)

Lemma route_night_heartbeat ctx profile :
  MapTriggerToFunction (lit "on_night_heartbeat") ctx profile =
  if fgt (NPCVoiceProfile.superstition01 profile) (F32.ratio 6 10)
  then Dread else Rumor.
Proof. reflexivity. Qed.

Lemma route_enter_safehouse ctx profile :
  MapTriggerToFunction (lit "on_enter_safehouse") ctx profile =
  if fgt (NPCVoiceProfile.bureaucratic01 profile) (F32.ratio 5 10)
  then Bureaucratic else NeutralAmbient.
Proof. reflexivity. Qed.

(** C5. The router returns a category for every tag, context and profile:
    the four fixed tags map to threat-bark, pain, surprise and ritual-hint;
    the night heartbeat to dread when the superstition slider exceeds 0.6
    and to rumor otherwise; entering a safehouse to bureaucratic when the
    bureaucratic slider exceeds 0.5 and to ambient otherwise; any other tag
    to dread when the threat level exceeds 0.6, else to rumor when the
    context knows a rumor, else to ambient. *)
Theorem MapTriggerToFunction_policy (triggerTag : Str)
    (ctx : DialogueContext.t) (profile : NPCVoiceProfile.t) :
  (∃ category, MapTriggerToFunction triggerTag ctx profile = category)
  ∧ MapTriggerToFunction (lit "on_enemy_spotted") ctx profile = ThreatBark
  ∧ MapTriggerToFunction (lit "on_player_pain") ctx profile = Pain
  ∧ MapTriggerToFunction (lit "on_player_surprised") ctx profile = Surprise
  ∧ MapTriggerToFunction (lit "on_player_breaks_taboo") ctx profile = RitualHint
  ∧ (MapTriggerToFunction (lit "on_night_heartbeat") ctx profile = Dread
       ↔ fgt (NPCVoiceProfile.superstition01 profile) (F32.ratio 6 10) = true)
  ∧ (MapTriggerToFunction (lit "on_night_heartbeat") ctx profile = Rumor
       ↔ fgt (NPCVoiceProfile.superstition01 profile) (F32.ratio 6 10) = false)
  ∧ (MapTriggerToFunction (lit "on_enter_safehouse") ctx profile = Bureaucratic
       ↔ fgt (NPCVoiceProfile.bureaucratic01 profile) (F32.ratio 5 10) = true)
  ∧ (MapTriggerToFunction (lit "on_enter_safehouse") ctx profile = NeutralAmbient
       ↔ fgt (NPCVoiceProfile.bureaucratic01 profile) (F32.ratio 5 10) = false)
  ∧ (triggerTag ∉ explicit_triggers →
     MapTriggerToFunction triggerTag ctx profile =
       if fgt (DialogueContext.threatLevel01 ctx) (F32.ratio 6 10) then Dread
       else if decide (DialogueContext.knownRumorIds ctx ≠ ∅) then Rumor
       else NeutralAmbient).
Proof.
  split; [eauto|].
  rewrite route_night_heartbeat, route_enter_safehouse.
  repeat match goal with |- _ ∧ _ => split end; try reflexivity.
  - destruct (fgt _ _); split; (reflexivity || discriminate).
  - destruct (fgt _ _); split; (reflexivity || discriminate).
  - destruct (fgt _ _); split; (reflexivity || discriminate).
  - destruct (fgt _ _); split; (reflexivity || discriminate).
  - intros Hother. unfold explicit_triggers in Hother.
    rewrite !not_elem_of_cons in Hother.
    destruct Hother as (H1 & H2 & H3 & H4 & H5 & H6 & _).
    unfold MapTriggerToFunction.
    rewrite !decide_False by assumption.
    destruct (fgt _ _); [reflexivity|].
    destruct (decide (DialogueContext.knownRumorIds ctx ≠ ∅)) as [Hr|Hr].
    + rewrite bool_decide_eq_false_2 by exact Hr. reflexivity.
    + apply dec_stable in Hr. rewrite bool_decide_eq_true_2 by exact Hr.
      reflexivity.
Qed.

(** ** Candidate filter *)

Lemma existsb_bool_decide {A} `{EqDecision A} (x : A) (l : list A) :
  existsb (λ y, bool_decide (y = x)) l = true ↔ x ∈ l.
Proof.
  rewrite existsb_exists. split.
  - intros (y & Hin & Heq). apply bool_decide_eq_true in Heq as ->.
    apply list_elem_of_In. exact Hin.
  - intros Hin. exists x. split; [apply list_elem_of_In; exact Hin|].
    apply bool_decide_eq_true. reflexivity.
Qed.

Lemma forallb_bool_decide {A} (P : A → Prop) `{∀ x, Decision (P x)} (l : list A) :
  forallb (λ y, bool_decide (P y)) l = true ↔ Forall P l.
Proof.
  rewrite forallb_forall, List.Forall_forall. split.
  - intros Hall y Hin.
    apply Hall in Hin. apply bool_decide_eq_true in Hin. exact Hin.
  - intros Hall y Hin. apply bool_decide_eq_true. apply Hall. exact Hin.
Qed.

Lemma guard_iff (g rest : bool) :
  (if g then false else rest) = true ↔ g = false ∧ rest = true.
Proof. destruct g; intuition congruence. Qed.

Lemma tone_guard (a b : RegionTone) :
  negb (bool_decide (a = b)) && negb (bool_decide (a = ForestVillage))
    && negb (bool_decide (b = ForestVillage)) = false
  ↔ tone_compatible a b.
Proof.
  unfold tone_compatible. repeat case_bool_decide; simpl; intuition congruence.
Qed.

Lemma role_guard (role : SpeakerSocialRole) (roles : list SpeakerSocialRole) :
  negb (bool_decide (roles = []))
    && negb (existsb (λ r, bool_decide (r = role)) roles) = false
  ↔ roles = [] ∨ role ∈ roles.
Proof.
  pose proof (existsb_bool_decide role roles) as Hrole.
  destruct (existsb _ roles); case_bool_decide; simpl; intuition congruence.
Qed.

Lemma required_guard (X : gset Str) (ids : list Str) :
  negb (forallb (λ x, bool_decide (x ∈ X)) ids) = false
  ↔ Forall (λ x, x ∈ X) ids.
Proof.
  rewrite negb_false_iff. apply (forallb_bool_decide (λ x, x ∈ X)).
Qed.

Lemma location_guard (locationId : Str) (disallowed : list Str) :
  negb (bool_decide (locationId = []))
    && existsb (λ loc, bool_decide (loc = locationId)) disallowed = false
  ↔ (locationId ≠ [] → Forall (λ loc, loc ≠ locationId) disallowed).
Proof.
  pose proof (existsb_bool_decide locationId disallowed) as Hloc.
  assert (Forall (λ loc, loc ≠ locationId) disallowed ↔ locationId ∉ disallowed)
    as ->.
  { rewrite list.Forall_forall. split.
    - intros Hall Hin. exact (Hall _ Hin eq_refl).
    - intros Hnin loc Hin ->. exact (Hnin Hin). }
  destruct (existsb _ disallowed); case_bool_decide; simpl;
    intuition congruence.
Qed.

Lemma candidate_passes_iff ctx profile fn T :
  candidate_passes ctx profile fn T = true ↔ is_candidate ctx profile fn T.
Proof.
  unfold candidate_passes, is_candidate.
  rewrite !guard_iff, negb_false_iff, bool_decide_eq_true.
  rewrite tone_guard, role_guard, !required_guard, location_guard.
  destruct (DialogueTemplate.condition T) as [condition|];
    [destruct (condition ctx profile)|]; simpl; intuition congruence.
Qed.

(** C1. The candidates are the templates of the pool that satisfy every
    condition of [is_candidate], in pool order; a template with a required
    event that the context does not hold is never among them. *)
Theorem CollectCandidates_filter {R} (sys : DialogueSystem R)
    (ctx : DialogueContext.t) (profile : NPCVoiceProfile.t)
    (fn : DialogueFunction) :
  CollectCandidates sys ctx profile fn
    = filter (is_candidate ctx profile fn) (templates sys)
  ∧ CollectCandidates sys ctx profile fn `sublist_of` templates sys
  ∧ (∀ T, T ∈ CollectCandidates sys ctx profile fn
          ↔ T ∈ templates sys ∧ is_candidate ctx profile fn T)
  ∧ (∀ T ev, ev ∈ DialogueTemplate.requiredEventIds T →
             ev ∉ DialogueContext.recentEventIds ctx →
             T ∉ CollectCandidates sys ctx profile fn).
Proof.
  assert (CollectCandidates sys ctx profile fn
          = filter (is_candidate ctx profile fn) (templates sys)) as Heq.
  { unfold CollectCandidates.
    induction (templates sys) as [|T pool IH]; [reflexivity|].
    simpl. rewrite filter_cons, IH.
    pose proof (candidate_passes_iff ctx profile fn T) as Hiff.
    destruct (candidate_passes ctx profile fn T).
    - rewrite decide_True by (apply Hiff; reflexivity). reflexivity.
    - rewrite decide_False; [reflexivity|].
      intros Hc. apply Hiff in Hc. discriminate. }
  split; [exact Heq|]. rewrite Heq.
  split; [apply sublist_filter|].
  split.
  - intros T. rewrite list_elem_of_filter. tauto.
  - intros T ev Hreq Hmiss Hin.
    apply list_elem_of_filter in Hin as [(_ & _ & _ & _ & Hev & _) _].
    rewrite list.Forall_forall in Hev. exact (Hmiss (Hev _ Hreq)).
Qed.

(** ** Weighted selector *)

Lemma pick_scan_Some roll acc candidates t :
  pick_scan roll acc candidates = Some t →
  ∃ i, candidates !! i = Some t
       ∧ fle roll (sum_weights acc (take (S i) candidates)) = true
       ∧ ∀ j, j < i → fle roll (sum_weights acc (take (S j) candidates)) = false.
Proof.
  revert acc. induction candidates as [|c rest IH]; intros acc; simpl.
  - discriminate.
  - destruct (fle roll (F32.add acc (DialogueTemplate.weight c))) eqn:Hle.
    + intros [= ->]. exists 0. split; [reflexivity|]. split.
      * rewrite take_0. exact Hle.
      * intros j Hj. lia.
    + intros Hscan. destruct (IH _ Hscan) as (i & Hi & Hhit & Hmiss).
      exists (S i). split; [exact Hi|]. split; [exact Hhit|].
      intros [|j] Hj.
      * rewrite take_0. exact Hle.
      * apply Hmiss. lia.
Qed.


Section Selector.
Context {R : Type} `{!RandomEngine R}.

Lemma RandomFloat_allowed a b (g : R) :
  uniform_real_allowed a b = true →
  RNG.RandomFloat a b g = inr (uniform_real a b g).
Proof. intros Hok. unfold RNG.RandomFloat. rewrite Hok. reflexivity. Qed.

Lemma RandomFloat_undefined a b (g : R) :
  uniform_real_allowed a b = false →
  RNG.RandomFloat a b g = inl DistributionBounds.
Proof. intros Hno. unfold RNG.RandomFloat. rewrite Hno. reflexivity. Qed.

Lemma PickTemplateWeighted_in candidates g t g' :
  PickTemplateWeighted candidates g = inr (Some t, g') → t ∈ candidates.
Proof.
  unfold PickTemplateWeighted. destruct candidates as [|first rest]; [discriminate|].
  destruct (fle (sum_weights F32.zero (first :: rest)) F32.zero).
  - intros [= -> _]. left.
  - destruct (RNG.RandomFloat _ _ g) as [ub | [roll g1]]; [discriminate|].
    destruct (pick_scan roll F32.zero (first :: rest)) as [c|] eqn:Hscan.
    + intros [= -> _]. apply pick_scan_Some in Hscan as (i & Hi & _).
      eapply list_elem_of_lookup_2. exact Hi.
    + intros [= Hlast _]. apply last_Some_elem_of. exact Hlast.
Qed.

Lemma PickTemplateWeighted_None candidates g g' :
  PickTemplateWeighted candidates g = inr (None, g') → candidates = [].
Proof.
  destruct candidates as [|first rest]; [reflexivity|].
  unfold PickTemplateWeighted.
  destruct (fle (sum_weights F32.zero (first :: rest)) F32.zero); [discriminate|].
  destruct (RNG.RandomFloat _ _ g) as [ub | [roll g1]]; [discriminate|].
  destruct (pick_scan roll F32.zero (first :: rest)); [discriminate|].
  intros [= Hlast _]. apply last_None in Hlast. discriminate.
Qed.

Lemma PickTemplateWeighted_degenerate first rest g :
  fle (sum_weights F32.zero (first :: rest)) F32.zero = true →
  PickTemplateWeighted (first :: rest) g = inr (Some first, g).
Proof. intros Hsum. unfold PickTemplateWeighted. rewrite Hsum. reflexivity. Qed.

(** The selector does not return exactly when it asks for a draw on
    bounds that the distribution does not allow. *)
Lemma PickTemplateWeighted_undefined candidates g ub :
  PickTemplateWeighted candidates g = inl ub
  ↔ ub = DistributionBounds
    ∧ candidates ≠ []
    ∧ fle (sum_weights F32.zero candidates) F32.zero = false
    ∧ uniform_real_allowed F32.zero (sum_weights F32.zero candidates) = false.
Proof.
  unfold PickTemplateWeighted. destruct candidates as [|first rest].
  { split; [discriminate | intros (_ & ? & _); done]. }
  destruct (fle (sum_weights F32.zero (first :: rest)) F32.zero).
  { split; [discriminate | intros (_ & _ & ? & _); done]. }
  unfold RNG.RandomFloat.
  destruct (uniform_real_allowed F32.zero (sum_weights F32.zero (first :: rest))).
  - destruct (uniform_real _ _ g) as [roll g1].
    destruct (pick_scan roll F32.zero (first :: rest));
      (split; [discriminate | intros (_ & _ & _ & ?); done]).
  - split; [intros [= <-]; done | intros (-> & _); reflexivity].
Qed.


End Selector.

(** ** Orchestration: [GenerateLine] *)


Section Orchestration.
Context {R : Type} `{!RandomEngine R} `{!UnorderedSetOrder}.

Implicit Types (sys : DialogueSystem R) (ctx : DialogueContext.t).

Lemma GenerateLine_unknown_npc sys npcId triggerTag ctx :
  GetNPCProfile sys npcId = None →
  GenerateLine sys npcId triggerTag ctx = inr ([], sys).
Proof. intros Hnone. unfold GenerateLine. rewrite Hnone. reflexivity. Qed.

Lemma GenerateLine_on_cooldown sys npcId triggerTag ctx profile :
  GetNPCProfile sys npcId = Some profile →
  CanFire sys profile (MapTriggerToFunction triggerTag ctx profile) = false →
  GenerateLine sys npcId triggerTag ctx = inr ([], sys).
Proof.
  intros Hp Hcool. unfold GenerateLine. rewrite Hp. simpl.
  rewrite Hcool. reflexivity.
Qed.

Lemma GenerateLine_no_candidates sys npcId triggerTag ctx profile :
  GetNPCProfile sys npcId = Some profile →
  CollectCandidates sys ctx profile
    (MapTriggerToFunction triggerTag ctx profile) = [] →
  GenerateLine sys npcId triggerTag ctx = inr ([], sys).
Proof.
  intros Hp Hnone. unfold GenerateLine. rewrite Hp. simpl.
  destruct (CanFire sys profile _); [|reflexivity]. simpl.
  rewrite Hnone. reflexivity.
Qed.

(** Past the three rejections: the selector asks for a draw that the
    distribution does not allow, and the call is undefined before the
    ledger is touched; or a template of the candidate list is chosen, the
    ledger entry of the pair is set to the current time, and the chosen
    template is realized. *)
Lemma GenerateLine_selected sys npcId triggerTag ctx profile :
  let fn := MapTriggerToFunction triggerTag ctx profile in
  GetNPCProfile sys npcId = Some profile →
  CanFire sys profile fn = true →
  CollectCandidates sys ctx profile fn ≠ [] →
  (PickTemplateWeighted (CollectCandidates sys ctx profile fn) (rng sys)
     = inl DistributionBounds
   ∧ GenerateLine sys npcId triggerTag ctx = inl DistributionBounds)
  ∨ ∃ chosen g,
      PickTemplateWeighted (CollectCandidates sys ctx profile fn) (rng sys)
        = inr (Some chosen, g)
      ∧ chosen ∈ CollectCandidates sys ctx profile fn
      ∧ GenerateLine sys npcId triggerTag ctx
        = match RealizeTemplate chosen ctx profile g with
          | inl ub => inl ub
          | inr (line, g') =>
              inr (line,
                   with_rng (TouchCooldown (with_rng sys g)
                               (NPCVoiceProfile.npcId profile) fn) g')
          end.
Proof.
  intros fn Hp Hfire Hcand. unfold GenerateLine. rewrite Hp. simpl.
  fold fn. rewrite Hfire. simpl.
  rewrite bool_decide_eq_false_2 by exact Hcand.
  destruct (PickTemplateWeighted (CollectCandidates sys ctx profile fn) (rng sys))
    as [ub | [[chosen|] g]] eqn:Hpick.
  - left. apply PickTemplateWeighted_undefined in Hpick as (-> & _). auto.
  - right. exists chosen, g. split; [reflexivity|]. split; [|reflexivity].
    eapply PickTemplateWeighted_in. exact Hpick.
  - exfalso. apply Hcand. eapply PickTemplateWeighted_None. exact Hpick.
Qed.

(** The three rejections, and nothing else, leave the call before the
    selector is asked; past them the call is undefined at the draw, or a
    template is chosen. *)
Lemma GenerateLine_paths sys npcId triggerTag ctx :
  (GenerateLine sys npcId triggerTag ctx = inr ([], sys)
   ∧ (GetNPCProfile sys npcId = None
      ∨ ∃ profile,
          GetNPCProfile sys npcId = Some profile
          ∧ (CanFire sys profile
               (MapTriggerToFunction triggerTag ctx profile) = false
             ∨ CollectCandidates sys ctx profile
                 (MapTriggerToFunction triggerTag ctx profile) = [])))
  ∨ (GenerateLine sys npcId triggerTag ctx = inl DistributionBounds
     ∧ ∃ profile,
         GetNPCProfile sys npcId = Some profile
         ∧ PickTemplateWeighted
             (CollectCandidates sys ctx profile
                (MapTriggerToFunction triggerTag ctx profile)) (rng sys)
           = inl DistributionBounds)
  ∨ ∃ profile chosen g,
      GetNPCProfile sys npcId = Some profile
      ∧ chosen ∈ CollectCandidates sys ctx profile
                   (MapTriggerToFunction triggerTag ctx profile)
      ∧ GenerateLine sys npcId triggerTag ctx
        = match RealizeTemplate chosen ctx profile g with
          | inl ub => inl ub
          | inr (line, g') =>
              inr (line,
                   with_rng (TouchCooldown (with_rng sys g)
                               (NPCVoiceProfile.npcId profile)
                               (MapTriggerToFunction triggerTag ctx profile)) g')
          end.
Proof.
  destruct (GetNPCProfile sys npcId) as [profile|] eqn:Hp.
  - destruct (CanFire sys profile (MapTriggerToFunction triggerTag ctx profile))
      eqn:Hfire.
    + destruct (decide (CollectCandidates sys ctx profile
                          (MapTriggerToFunction triggerTag ctx profile) = []))
        as [Hnone|Hsome].
      * left. split; [eapply GenerateLine_no_candidates; eauto|].
        right. exists profile. auto.
      * right.
        destruct (GenerateLine_selected sys npcId triggerTag ctx profile
                    Hp Hfire Hsome)
          as [[Hpick Hub] | (chosen & g & _ & Hin & Heq)].
        -- left. split; [exact Hub|]. exists profile. auto.
        -- right. exists profile, chosen, g. auto.
    + left. split; [eapply GenerateLine_on_cooldown; eauto|].
      right. exists profile. auto.
  - left. split; [apply GenerateLine_unknown_npc; exact Hp|]. left. reflexivity.
Qed.

End Orchestration.

(** ** The demo *)

Example demo_heartbeat_line :
  GenerateLine demo_system (lit "NPC_OLD_NEIGHBOR") (lit "on_night_heartbeat")
    demo_ctx
  = inr (lit "The trees remember what the village forgets.", demo_after_heartbeat).
Proof. vm_compute. reflexivity. Qed.

Example demo_taboo_line :
  (λ r, match r with inr (line, _) => Some line | inl _ => None end)
    (GenerateLine (SetCurrentTimeSeconds demo_after_heartbeat (F64.of_Z 10))
       (lit "NPC_OLD_NEIGHBOR") (lit "on_player_breaks_taboo") demo_ctx)
  = Some (lit "If the branches start singing, count your teeth and keep walking.").
Proof. vm_compute. reflexivity. Qed.

Example demo_substitution :
  SubstituteTokens
    (DialogueTemplate.mk (lit "X") Rumor Unknown ForestVillage [] [] [] []
       (lit "{PLAYER_CALLSIGN}, stay out of {PLACE}: {TABOO}. {PLACE} keeps {LOCAL_SPIRIT}.")
       (F32.of_Z 1) None)
    demo_ctx oldNeighbor
  = lit "you, stay out of Ash Ditch: no whistling after dark. Ash Ditch keeps the bent one.".
Proof. vm_compute. reflexivity. Qed.

(** The same heartbeat with both style draws succeeding: the resigned tail,
    then the trailing period traded for a space and the closing fragment. *)
Example demo_heartbeat_styled :
  (λ r, match r with inr (line, _) => Some line | inl _ => None end)
    (GenerateLine
       (RegisterNPCProfile
          (SetCurrentTimeSeconds (DialogueSystem_new [true; true]) (F64.of_Z 0))
          oldNeighbor)
       (lit "NPC_OLD_NEIGHBOR") (lit "on_night_heartbeat") demo_ctx)
  = Some (lit "The trees remember what the village forgets. You get used to it Just... don't ask.").
Proof. vm_compute. reflexivity. Qed.

Example overlapping_occurrences :
  ReplaceToken (lit "aaa") (lit "aa") (lit "b") = lit "ba".
Proof. vm_compute. reflexivity. Qed.

(** ** Cooldown gating *)

Section Cooldown.
Context {R : Type} `{!RandomEngine R} `{!UnorderedSetOrder}.

Implicit Types (sys : DialogueSystem R) (ctx : DialogueContext.t).


End Cooldown.

(** ** Rejections *)

Section Rejections.
Context {R : Type} `{!RandomEngine R} `{!UnorderedSetOrder}.

Implicit Types (sys : DialogueSystem R) (ctx : DialogueContext.t).

Lemma with_rng_same sys : with_rng sys (rng sys) = sys.
Proof. destruct sys. reflexivity. Qed.

(** C7 (amended). A call for an NPC that is not registered returns the empty
    line. So does a call that finds the pair on cooldown, and a call that
    finds no candidate; each leaves the system as it was and none is an
    error. Weights that sum to at most zero do not reject the call: the first
    candidate is chosen, the ledger is touched and the template realized. *)
Theorem GenerateLine_rejections sys npcId triggerTag ctx :
  (GetNPCProfile sys npcId = None →
   GenerateLine sys npcId triggerTag ctx = inr ([], sys))
  ∧ (∀ profile,
       GetNPCProfile sys npcId = Some profile →
       let fn := MapTriggerToFunction triggerTag ctx profile in
       (CanFire sys profile fn = false →
        GenerateLine sys npcId triggerTag ctx = inr ([], sys))
       ∧ (CollectCandidates sys ctx profile fn = [] →
          GenerateLine sys npcId triggerTag ctx = inr ([], sys))
       ∧ (∀ first rest,
            CanFire sys profile fn = true →
            CollectCandidates sys ctx profile fn = first :: rest →
            fle (sum_weights F32.zero (first :: rest)) F32.zero = true →
            GenerateLine sys npcId triggerTag ctx
            = match RealizeTemplate first ctx profile (rng sys) with
              | inl ub => inl ub
              | inr (line, g) =>
                  inr (line,
                       with_rng (TouchCooldown sys
                                   (NPCVoiceProfile.npcId profile) fn) g)
              end)).
Proof.
  split; [apply GenerateLine_unknown_npc|].
  intros profile Hp fn. split; [|split].
  - apply GenerateLine_on_cooldown. exact Hp.
  - apply GenerateLine_no_candidates. exact Hp.
  - intros first rest Hfire Hcand Hsum.
    destruct (GenerateLine_selected sys npcId triggerTag ctx profile Hp Hfire)
      as [[Hpick _] | (chosen & g & Hpick & _ & Heq)].
    { fold fn. rewrite Hcand. discriminate. }
    + fold fn in Hpick. rewrite Hcand in Hpick.
      rewrite (PickTemplateWeighted_degenerate first rest (rng sys) Hsum) in Hpick.
      discriminate.
    + fold fn in Hpick, Heq. rewrite Hcand in Hpick.
      rewrite (PickTemplateWeighted_degenerate first rest (rng sys) Hsum) in Hpick.
      injection Hpick as <- <-. rewrite Heq, with_rng_same. reflexivity.
Qed.
End Rejections.

(** ** The cooldown ledger across a call *)

Lemma registry_keyed_new {R} (g : R) : registry_keyed (DialogueSystem_new g).
Proof. intros npcId profile Hp. simpl in Hp. rewrite lookup_empty in Hp. done. Qed.

Lemma registry_keyed_register {R} (sys : DialogueSystem R) profile :
  registry_keyed sys → registry_keyed (RegisterNPCProfile sys profile).
Proof.
  intros Hkeyed npcId p Hp. simpl in Hp.
  destruct (decide (NPCVoiceProfile.npcId profile = npcId)) as [<- | Hne].
  - rewrite lookup_insert_eq in Hp. injection Hp as <-. reflexivity.
  - rewrite lookup_insert_ne in Hp by exact Hne. exact (Hkeyed _ _ Hp).
Qed.

Section Ledger.
Context {R : Type} `{!RandomEngine R} `{!UnorderedSetOrder}.

Implicit Types (sys : DialogueSystem R) (ctx : DialogueContext.t).

(** C3. A call that is rejected (the NPC is not registered, the pair is on
    cooldown, or no template matches) returns the empty line and leaves the
    ledger, with the rest of the system, as it was. Any other call asks the
    selector for a template. Either the selector needs a draw on bounds
    that the distribution does not allow, and the call is undefined there,
    before the ledger is touched; or a template is chosen, and the ledger
    the call leaves is the ledger of before with one entry set, after the
    choice and before the realization: the current time, for the NPC
    identifier of the profile (the identifier asked for, when the registry
    is keyed) and the routed category. *)
Theorem GenerateLine_ledger sys npcId triggerTag ctx :
  (rejected sys npcId triggerTag ctx →
   GenerateLine sys npcId triggerTag ctx = inr ([], sys))
  ∧ (¬ rejected sys npcId triggerTag ctx →
     ∃ profile,
       GetNPCProfile sys npcId = Some profile
       ∧ (registry_keyed sys → NPCVoiceProfile.npcId profile = npcId)
       ∧ ((PickTemplateWeighted
             (CollectCandidates sys ctx profile
                (MapTriggerToFunction triggerTag ctx profile)) (rng sys)
           = inl DistributionBounds
           ∧ GenerateLine sys npcId triggerTag ctx = inl DistributionBounds)
          ∨ ∃ chosen g,
              PickTemplateWeighted
                (CollectCandidates sys ctx profile
                   (MapTriggerToFunction triggerTag ctx profile)) (rng sys)
              = inr (Some chosen, g)
              ∧ ∃ touched,
                  touched = TouchCooldown (with_rng sys g)
                              (NPCVoiceProfile.npcId profile)
                              (MapTriggerToFunction triggerTag ctx profile)
                  ∧ lastFireTimestamps touched
                    = <[(NPCVoiceProfile.npcId profile,
                         MapTriggerToFunction triggerTag ctx profile)
                        := currentTimeSeconds sys]> (lastFireTimestamps sys)
                  ∧ GenerateLine sys npcId triggerTag ctx
                    = match RealizeTemplate chosen ctx profile (rng touched) with
                      | inl ub => inl ub
                      | inr (line, g') => inr (line, with_rng touched g')
                      end
                  ∧ ∀ line sys',
                      GenerateLine sys npcId triggerTag ctx = inr (line, sys') →
                      lastFireTimestamps sys' = lastFireTimestamps touched)).
Proof.
  split.
  - intros [Hnone | (profile & Hp & [Hcool | Hcand])].
    + apply GenerateLine_unknown_npc. exact Hnone.
    + eapply GenerateLine_on_cooldown; eauto.
    + eapply GenerateLine_no_candidates; eauto.
  - intros Hnot.
    destruct (GetNPCProfile sys npcId) as [profile|] eqn:Hp;
      [|destruct Hnot; left; exact Hp].
    destruct (CanFire sys profile (MapTriggerToFunction triggerTag ctx profile))
      eqn:Hfire; [|destruct Hnot; right; exists profile; auto].
    destruct (decide (CollectCandidates sys ctx profile
                        (MapTriggerToFunction triggerTag ctx profile) = []))
      as [Hnone | Hsome]; [destruct Hnot; right; exists profile; auto|].
    exists profile. split; [reflexivity|]. split.
    { intros Hkeyed. apply Hkeyed. exact Hp. }
    destruct (GenerateLine_selected sys npcId triggerTag ctx profile
                Hp Hfire Hsome)
      as [Hundefined | (chosen & g & Hpick & _ & Heq)]; [left; exact Hundefined|].
    right. exists chosen, g. split; [exact Hpick|].
    eexists. split; [reflexivity|]. split; [reflexivity|]. split; [exact Heq|].
    intros line sys' Hgen. rewrite Heq in Hgen. simpl in Hgen.
    destruct (RealizeTemplate chosen ctx profile g) as [ub | [line' g']];
      [discriminate|].
    injection Hgen as _ <-. reflexivity.
Qed.
End Ledger.

(** ** Style pass: truncation *)

Lemma last_index_spec c s :
  match last_index c s with
  | Some i => s !! i = Some c ∧ ∀ j, i < j → s !! j ≠ Some c
  | None => ∀ j, s !! j ≠ Some c
  end.
Proof.
  induction s as [|a s IH]; simpl.
  - intros j. rewrite lookup_nil. discriminate.
  - destruct (last_index c s) as [i|].
    + destruct IH as [Hi Hmax]. split; [exact Hi|].
      intros [|j] Hj; [lia|]. simpl. apply Hmax. lia.
    + destruct (decide (a = c)) as [->|Hne].
      * split; [reflexivity|]. intros [|j] Hj; [lia|]. simpl. apply IH.
      * intros [|j]; simpl; [congruence | apply IH].
Qed.

Lemma rfind_Some line c pos i :
  rfind line c pos = Some i ↔ last_char_at line c pos i.
Proof.
  unfold rfind, last_char_at.
  pose proof (last_index_spec c (take (S pos) line)) as Hspec.
  destruct (last_index c (take (S pos) line)) as [k|].
  - destruct Hspec as [Hk Hmax].
    apply lookup_take_Some in Hk as [Hk Hlt].
    assert (∀ j, k < j ≤ pos → line !! j ≠ Some c) as Hmax'.
    { intros j Hj Hc. apply (Hmax j); [lia|].
      apply lookup_take_Some. split; [exact Hc | lia]. }
    split.
    + intros [= <-]. split; [lia|]. split; assumption.
    + intros (Hle & Hi & Himax). f_equal.
      destruct (Nat.lt_trichotomy k i) as [Hlt'|[->|Hgt]]; [|reflexivity|].
      * exfalso. apply (Hmax' i); [lia | exact Hi].
      * exfalso. apply (Himax k); [lia | exact Hk].
  - split; [discriminate|]. intros (Hle & Hi & _). exfalso.
    apply (Hspec i). apply lookup_take_Some. split; [exact Hi | lia].
Qed.

Lemma rfind_None line c pos :
  rfind line c pos = None ↔ ∀ j, j ≤ pos → line !! j ≠ Some c.
Proof.
  unfold rfind.
  pose proof (last_index_spec c (take (S pos) line)) as Hspec.
  destruct (last_index c (take (S pos) line)) as [k|].
  - destruct Hspec as [Hk _]. apply lookup_take_Some in Hk as [Hk Hlt].
    split; [discriminate|]. intros Hnone. exfalso.
    apply (Hnone k); [lia | exact Hk].
  - split; [|reflexivity]. intros _ j Hj Hc.
    apply (Hspec j). apply lookup_take_Some. split; [exact Hc | lia].
Qed.

Section Style.
Context {R : Type} `{!RandomEngine R}.

Lemma Chance_half (g : R) :
  RNG.Chance (F32.ratio 5 10) g = bernoulli (F32.ratio 5 10) g.
Proof. reflexivity. Qed.

(** C8 (amended). With a verbosity slider below 0.3 and a line of more than
    60 characters: when the line holds a space at or before position 60, it
    is cut at the last such space, everything from that space on removed,
    and ["..."] is appended when the Bernoulli draw of parameter 0.5
    succeeds; when it holds none, the line is left as it is and nothing is
    drawn. With a verbosity slider of at least 0.3, or a line of at most 60
    characters, the line is left as it is. *)
Theorem StyleTruncate_spec (line : Str) (profile : NPCVoiceProfile.t) (g : R) :
  (flt (NPCVoiceProfile.verbosity01 profile) (F32.ratio 3 10) = true →
   60 < length line →
   (∀ cutPos,
      last_char_at line " "%char 60 cutPos →
      StyleTruncate line profile g
      = let '(ellipsis, g') := bernoulli (F32.ratio 5 10) g in
        (take cutPos line ++ (if ellipsis then lit "..." else []), g'))
   ∧ ((∀ j, j ≤ 60 → line !! j ≠ Some " "%char) →
      StyleTruncate line profile g = (line, g)))
  ∧ (fge (NPCVoiceProfile.verbosity01 profile) (F32.ratio 3 10) = true
     ∨ length line ≤ 60 →
     StyleTruncate line profile g = (line, g)).
Proof.
  unfold StyleTruncate. split.
  - intros Hlow Hlong. rewrite Hlow, decide_True by exact Hlong. split.
    + intros cutPos Hcut. apply rfind_Some in Hcut. rewrite Hcut, Chance_half.
      unfold erase. destruct (bernoulli _ g) as [[|] g'];
        [reflexivity | rewrite app_nil_r; reflexivity].
    + intros Hnone. apply rfind_None in Hnone. rewrite Hnone. reflexivity.
  - intros [Hhigh | Hshort].
    + destruct (flt _ _) eqn:Hlow; [|reflexivity].
      apply flt_not_fge in Hlow. congruence.
    + destruct (flt _ _); [|reflexivity].
      rewrite decide_False by lia. reflexivity.
Qed.
(** The truncation empties a line exactly when the line is empty already,
    or the cut falls at position 0, on a leading space, and no ellipsis is
    drawn. *)
Lemma StyleTruncate_empty (line : Str) (profile : NPCVoiceProfile.t) (g : R) :
  (StyleTruncate line profile g).1 = []
  ↔ line = []
    ∨ (flt (NPCVoiceProfile.verbosity01 profile) (F32.ratio 3 10) = true
       ∧ 60 < length line
       ∧ last_char_at line " "%char 60 0
       ∧ (bernoulli (F32.ratio 5 10) g).1 = false).
Proof.
  unfold StyleTruncate. rewrite <- rfind_Some.
  destruct (flt _ _); [|simpl; intuition congruence].
  destruct (decide (60 < length line)) as [Hlong | Hshort];
    [|simpl; intuition (congruence || lia)].
  destruct (rfind line " "%char 60) as [cutPos|] eqn:Hcut;
    [|simpl; intuition congruence].
  rewrite Chance_half. unfold erase.
  assert (cutPos ≤ 60) as Hle by (apply rfind_Some in Hcut as [? _]; lia).
  destruct (bernoulli (F32.ratio 5 10) g) as [[|] g']; simpl.
  - split.
    + intros Happ. apply app_eq_nil in Happ as [_ Hdots]. discriminate.
    + intros [-> | (_ & _ & _ & ?)]; [simpl in Hlong; lia | discriminate].
  - split.
    + intros Hnil. right. apply (f_equal length) in Hnil.
      rewrite length_take in Hnil. simpl in Hnil.
      assert (cutPos = 0) as -> by lia. auto.
    + intros [-> | (_ & _ & [= ->] & _)]; [simpl in Hlong; lia | reflexivity].
Qed.
(** Where the style pass is defined: on a line that is not empty and does
    not open with a space (or with a verbosity slider that rules the
    truncation out), with integer draws in their range, the pass returns a
    line, and the line is not empty. *)
Lemma ApplyStyleNoise_defined (line : Str) (profile : NPCVoiceProfile.t)
    (fn : DialogueFunction) (g : R) :
  draws_in_range R →
  line ≠ [] →
  flt (NPCVoiceProfile.verbosity01 profile) (F32.ratio 3 10) = false
  ∨ line !! 0 ≠ Some " "%char →
  ∃ line' g', ApplyStyleNoise line profile fn g = inr (line', g') ∧ line' ≠ [].
Proof.
  intros Hrange Hline Hsafe. unfold ApplyStyleNoise.
  pose proof (StyleTruncate_empty line profile g) as Hempty.
  destruct (StyleTruncate line profile g) as [line1 g1]. simpl in Hempty.
  assert (line1 ≠ []) as Hline1.
  { intros Hnil. apply Hempty in Hnil as [? | (Hlow & _ & (_ & Hsp & _) & _)];
      [done|]. destruct Hsafe; congruence. }
  clear Hempty Hsafe.
  assert (∃ line2 g2, StyleFatalism line1 profile fn g1 = inr (line2, g2)
                      ∧ line2 ≠ []) as (line2 & g2 & -> & Hline2).
  { unfold StyleFatalism.
    destruct (fgt _ _); [|eauto].
    destruct (RNG.Chance _ g1) as [[|] g1']; [|eauto].
    destruct (bool_decide (fn = Dread) || bool_decide (fn = Rumor)); [|eauto].
    unfold RNG.RandomInt.
    pose proof (Hrange 0%Z (Z.of_nat (length tails) - 1)%Z g1') as Hidx.
    destruct (uniform_int 0 (Z.of_nat (length tails) - 1) g1') as [idx g1''].
    simpl in Hidx. specialize (Hidx ltac:(lia)).
    rewrite decide_True by lia.
    destruct (tails !! Z.to_nat idx) as [tail|] eqn:Htail.
    - eexists _, _. split; [reflexivity|].
      intros Hnil. apply app_eq_nil in Hnil as [? _]. done.
    - apply lookup_ge_None in Htail. simpl in Htail. lia. }
  assert (∃ line3 g3, StyleBureaucratic line2 profile fn g2 = (line3, g3)
                      ∧ line3 ≠ []) as (line3 & g3 & -> & Hline3).
  { unfold StyleBureaucratic.
    destruct (fgt _ _ && bool_decide (fn = Bureaucratic)); [|eauto].
    destruct (RNG.Chance _ g2) as [[|] g2']; [|eauto].
    eexists _, _. split; [reflexivity|]. discriminate. }
  unfold StyleSuperstition.
  destruct (fgt _ _); [|eauto].
  destruct (RNG.Chance _ g3) as [[|] g3']; [|eauto].
  destruct (list.last line3) as [c|] eqn:Hlast.
  - eexists _, _. split; [reflexivity|].
    intros Hnil. apply app_eq_nil in Hnil as [_ ?]. discriminate.
  - apply last_None in Hlast. done.
Qed.
End Style.

(** ** The registry, the ledger and the event log across calls *)

(** X1. Registration is an insertion keyed by the identifier of the profile:
    the profile is found under its own identifier, the other identifiers
    keep what they had, a later registration under the same identifier
    replaces the earlier one, and the ledger is not touched, so a
    registration resets no cooldown. *)
Theorem RegisterNPCProfile_lookup {R} (sys : DialogueSystem R)
    (profile : NPCVoiceProfile.t) :
  GetNPCProfile (RegisterNPCProfile sys profile) (NPCVoiceProfile.npcId profile)
    = Some profile
  ∧ (∀ npcId, npcId ≠ NPCVoiceProfile.npcId profile →
       GetNPCProfile (RegisterNPCProfile sys profile) npcId
       = GetNPCProfile sys npcId)
  ∧ (∀ earlier,
       NPCVoiceProfile.npcId earlier = NPCVoiceProfile.npcId profile →
       RegisterNPCProfile (RegisterNPCProfile sys earlier) profile
       = RegisterNPCProfile sys profile)
  ∧ (∀ speaker fn,
       CanFire (RegisterNPCProfile sys profile) speaker fn
       = CanFire sys speaker fn).
Proof.
  unfold GetNPCProfile, RegisterNPCProfile. simpl.
  split; [apply lookup_insert_eq|]. split; [|split].
  - intros npcId Hne. apply lookup_insert_ne. congruence.
  - intros earlier Heq. simpl. rewrite Heq, insert_insert_eq. reflexivity.
  - reflexivity.
Qed.

Section Frame.
Context {R : Type} `{!RandomEngine R} `{!UnorderedSetOrder}.

Implicit Types (sys : DialogueSystem R) (ctx : DialogueContext.t).

(** What a call of [GenerateLine] can change: the engine state of the
    random source and at most one entry of the ledger. *)
Lemma GenerateLine_effect sys npcId triggerTag ctx line sys' :
  GenerateLine sys npcId triggerTag ctx = inr (line, sys') →
  npcProfiles sys' = npcProfiles sys
  ∧ templates sys' = templates sys
  ∧ emergentEvents sys' = emergentEvents sys
  ∧ currentTimeSeconds sys' = currentTimeSeconds sys
  ∧ (sys' = sys
     ∨ ∃ profile,
         GetNPCProfile sys npcId = Some profile
         ∧ lastFireTimestamps sys'
           = <[(NPCVoiceProfile.npcId profile,
                MapTriggerToFunction triggerTag ctx profile)
               := currentTimeSeconds sys]> (lastFireTimestamps sys)).
Proof.
  intros Hgen.
  destruct (GenerateLine_paths sys npcId triggerTag ctx)
    as [[Hrej _] | [[Hub _] | (profile & chosen & g & Hp & _ & Heq)]].
  - rewrite Hrej in Hgen. injection Hgen as _ <-. auto 10.
  - rewrite Hub in Hgen. discriminate.
  - rewrite Heq in Hgen.
    destruct (RealizeTemplate chosen ctx profile g) as [ub | [line' g']];
      [discriminate|].
    injection Hgen as _ <-. simpl. repeat split; try reflexivity.
    right. exists profile. auto.
Qed.

(** X2. A call of [GenerateLine] that returns leaves the registry, the pool,
    the event log and the clock as they were; no entry leaves the ledger,
    and an entry that changes belongs to the NPC asked for and holds the
    time of the call. *)
Theorem GenerateLine_frame sys npcId triggerTag ctx line sys' :
  GenerateLine sys npcId triggerTag ctx = inr (line, sys') →
  npcProfiles sys' = npcProfiles sys
  ∧ templates sys' = templates sys
  ∧ emergentEvents sys' = emergentEvents sys
  ∧ currentTimeSeconds sys' = currentTimeSeconds sys
  ∧ (∀ key, is_Some (lastFireTimestamps sys !! key) →
            is_Some (lastFireTimestamps sys' !! key))
  ∧ (∀ key, lastFireTimestamps sys' !! key ≠ lastFireTimestamps sys !! key →
            lastFireTimestamps sys' !! key = Some (currentTimeSeconds sys)
            ∧ ∃ profile, GetNPCProfile sys npcId = Some profile
                         ∧ key.1 = NPCVoiceProfile.npcId profile).
Proof.
  intros Hgen.
  destruct (GenerateLine_effect _ _ _ _ _ _ Hgen)
    as (Hreg & Hpool & Hlog & Hclock & Hledger).
  repeat match goal with |- _ ∧ _ => split end; try assumption.
  - intros key Hkey. destruct Hledger as [-> | (profile & _ & ->)]; [exact Hkey|].
    destruct (decide ((NPCVoiceProfile.npcId profile,
                       MapTriggerToFunction triggerTag ctx profile) = key))
      as [<- | Hne].
    + rewrite lookup_insert_eq. eauto.
    + rewrite lookup_insert_ne by exact Hne. exact Hkey.
  - intros key Hkey. destruct Hledger as [-> | (profile & Hp & Heq)]; [done|].
    rewrite Heq in Hkey |- *.
    destruct (decide ((NPCVoiceProfile.npcId profile,
                       MapTriggerToFunction triggerTag ctx profile) = key))
      as [<- | Hne].
    + rewrite lookup_insert_eq. split; [reflexivity|]. exists profile. auto.
    + rewrite lookup_insert_ne in Hkey by exact Hne. done.
Qed.

(** X3. [GenerateLine] does not read the event log: logging an event before
    the call or after it gives the same line and the same state. *)
Theorem GenerateLine_ignores_events sys eventId regionId severity01
    npcId triggerTag ctx :
  GenerateLine (NotifyEvent sys eventId regionId severity01) npcId triggerTag ctx
  = match GenerateLine sys npcId triggerTag ctx with
    | inl ub => inl ub
    | inr (line, sys') =>
        inr (line, NotifyEvent sys' eventId regionId severity01)
    end.
Proof.
  unfold GenerateLine.
  change (GetNPCProfile (NotifyEvent sys eventId regionId severity01))
    with (GetNPCProfile sys).
  change (CanFire (NotifyEvent sys eventId regionId severity01))
    with (CanFire sys).
  change (CollectCandidates (NotifyEvent sys eventId regionId severity01))
    with (CollectCandidates sys).
  change (rng (NotifyEvent sys eventId regionId severity01)) with (rng sys).
  destruct (GetNPCProfile sys npcId) as [profile|]; [|reflexivity].
  destruct (negb (CanFire sys profile _)); [reflexivity|].
  destruct (bool_decide (CollectCandidates sys ctx profile _ = []));
    [reflexivity|].
  destruct (PickTemplateWeighted _ (rng sys)) as [ub | [[chosen|] g]];
    [reflexivity | | reflexivity].
  change (rng (TouchCooldown (with_rng (NotifyEvent sys eventId regionId severity01) g)
                 (NPCVoiceProfile.npcId profile)
                 (MapTriggerToFunction triggerTag ctx profile))) with g.
  change (rng (TouchCooldown (with_rng sys g)
                 (NPCVoiceProfile.npcId profile)
                 (MapTriggerToFunction triggerTag ctx profile))) with g.
  destruct (RealizeTemplate chosen ctx profile g) as [ub | [line g']];
    reflexivity.
Qed.

(** X4. Registering one NPC does not change what another NPC says. *)
Theorem GenerateLine_other_registration sys other npcId triggerTag ctx :
  NPCVoiceProfile.npcId other ≠ npcId →
  GenerateLine (RegisterNPCProfile sys other) npcId triggerTag ctx
  = match GenerateLine sys npcId triggerTag ctx with
    | inl ub => inl ub
    | inr (line, sys') => inr (line, RegisterNPCProfile sys' other)
    end.
Proof.
  intros Hne. unfold GenerateLine.
  assert (GetNPCProfile (RegisterNPCProfile sys other) npcId
          = GetNPCProfile sys npcId) as ->
    by (apply lookup_insert_ne; exact Hne).
  change (CanFire (RegisterNPCProfile sys other)) with (CanFire sys).
  change (CollectCandidates (RegisterNPCProfile sys other))
    with (CollectCandidates sys).
  change (rng (RegisterNPCProfile sys other)) with (rng sys).
  destruct (GetNPCProfile sys npcId) as [profile|]; [|reflexivity].
  destruct (negb (CanFire sys profile _)); [reflexivity|].
  destruct (bool_decide (CollectCandidates sys ctx profile _ = []));
    [reflexivity|].
  destruct (PickTemplateWeighted _ (rng sys)) as [ub | [[chosen|] g]];
    [reflexivity | | reflexivity].
  change (rng (TouchCooldown (with_rng (RegisterNPCProfile sys other) g)
                 (NPCVoiceProfile.npcId profile)
                 (MapTriggerToFunction triggerTag ctx profile))) with g.
  change (rng (TouchCooldown (with_rng sys g)
                 (NPCVoiceProfile.npcId profile)
                 (MapTriggerToFunction triggerTag ctx profile))) with g.
  destruct (RealizeTemplate chosen ctx profile g) as [ub | [line g']];
    reflexivity.
Qed.

(** X5. Cooldowns are kept per NPC and per category: a line spoken by one NPC
    in one category leaves [CanFire] as it was for every other NPC and for
    every other category of the same NPC. *)
Theorem GenerateLine_cooldown_independent sys npcId triggerTag ctx line sys'
    speaker fn :
  GenerateLine sys npcId triggerTag ctx = inr (line, sys') →
  (∀ profile, GetNPCProfile sys npcId = Some profile →
              NPCVoiceProfile.npcId speaker ≠ NPCVoiceProfile.npcId profile
              ∨ fn ≠ MapTriggerToFunction triggerTag ctx profile) →
  CanFire sys' speaker fn = CanFire sys speaker fn.
Proof.
  intros Hgen Hother.
  destruct (GenerateLine_effect _ _ _ _ _ _ Hgen)
    as (_ & _ & _ & Hclock & [-> | (profile & Hp & Hledger)]); [reflexivity|].
  unfold CanFire. rewrite Hclock, Hledger.
  rewrite lookup_insert_ne; [reflexivity|].
  intros [= Hid Hfn]. destruct (Hother profile Hp); congruence.
Qed.

Lemma registry_keyed_generate sys npcId triggerTag ctx line sys' :
  GenerateLine sys npcId triggerTag ctx = inr (line, sys') →
  registry_keyed sys → registry_keyed sys'.
Proof.
  intros Hgen Hkeyed.
  destruct (GenerateLine_effect _ _ _ _ _ _ Hgen) as (Hreg & _).
  unfold registry_keyed. rewrite Hreg. exact Hkeyed.
Qed.

Lemma ledger_registered_generate sys npcId triggerTag ctx line sys' :
  GenerateLine sys npcId triggerTag ctx = inr (line, sys') →
  registry_keyed sys → ledger_registered sys → ledger_registered sys'.
Proof.
  intros Hgen Hkeyed Hledger.
  destruct (GenerateLine_effect _ _ _ _ _ _ Hgen)
    as (Hreg & _ & _ & _ & [-> | (profile & Hp & Heq)]); [exact Hledger|].
  intros id fn. rewrite Heq, Hreg.
  destruct (decide ((NPCVoiceProfile.npcId profile,
                     MapTriggerToFunction triggerTag ctx profile) = (id, fn)))
    as [[= <- <-] | Hne].
  - intros _. rewrite (Hkeyed _ _ Hp). unfold GetNPCProfile in Hp. eauto.
  - rewrite lookup_insert_ne by exact Hne. apply Hledger.
Qed.

(** X6. The invariants of the engine: in every state that the public
    operations lead to from the constructor, the registry holds each
    profile under the identifier of the profile, every entry of the ledger
    belongs to a registered NPC, and the pool is the built-in one. *)
Theorem reachable_invariants sys :
  reachable sys →
  registry_keyed sys
  ∧ ledger_registered sys
  ∧ templates sys = InitializeDefaultTemplates.
Proof.
  induction 1 as [g | sys t _ IH | sys profile _ IH | sys e r s _ IH
                 | sys npcId triggerTag ctx line sys' _ IH Hgen].
  - split; [apply registry_keyed_new|]. split; [|reflexivity].
    intros id fn [x Hx]. simpl in Hx. rewrite lookup_empty in Hx. discriminate.
  - exact IH.
  - destruct IH as (Hkeyed & Hledger & Hpool).
    split; [apply registry_keyed_register; exact Hkeyed|].
    split; [|exact Hpool].
    intros id fn Hin. simpl.
    destruct (decide (NPCVoiceProfile.npcId profile = id)) as [<- | Hne].
    + rewrite lookup_insert_eq. eauto.
    + rewrite lookup_insert_ne by exact Hne. exact (Hledger id fn Hin).
  - exact IH.
  - destruct IH as (Hkeyed & Hledger & Hpool).
    split; [eapply registry_keyed_generate; eauto|].
    split; [eapply ledger_registered_generate; eauto|].
    destruct (GenerateLine_effect _ _ _ _ _ _ Hgen) as (_ & -> & _).
    exact Hpool.
Qed.
End Frame.

(** ** The router never asks for a lie *)

Lemma MapTriggerToFunction_range triggerTag ctx profile :
  MapTriggerToFunction triggerTag ctx profile ≠ Misdirection.
Proof.
  unfold MapTriggerToFunction.
  do 4 (destruct (decide (triggerTag = _)); [discriminate|]).
  do 2 (destruct (decide (triggerTag = _)); [destruct (fgt _ _); discriminate|]).
  destruct (fgt _ _); [discriminate|].
  destruct (negb _); discriminate.
Qed.

(** X7. No trigger tag, context or profile is routed to the misdirection
    category; so no template of that category is ever a candidate of a
    call of [GenerateLine], whatever the pool holds. *)
Theorem MapTriggerToFunction_never_misdirection {R} (sys : DialogueSystem R)
    (triggerTag : Str) (ctx : DialogueContext.t) (profile : NPCVoiceProfile.t) :
  MapTriggerToFunction triggerTag ctx profile ≠ Misdirection
  ∧ Forall (λ T, DialogueTemplate.function T ≠ Misdirection)
      (CollectCandidates sys ctx profile
         (MapTriggerToFunction triggerTag ctx profile)).
Proof.
  split; [apply MapTriggerToFunction_range|].
  apply list.Forall_forall. intros T HT.
  unfold CollectCandidates in HT. apply list_elem_of_In, filter_In in HT as [_ HT].
  apply candidate_passes_iff in HT as [-> _].
  apply MapTriggerToFunction_range.
Qed.

(** ** Substitution: what the values can and cannot form *)

Lemma lookup_occurrence (pre token post : Str) k :
  k < length token → (pre ++ token ++ post) !! (length pre + k) = token !! k.
Proof.
  intros Hk. rewrite lookup_app_r by lia.
  replace (length pre + k - length pre) with k by lia.
  apply lookup_app_l. exact Hk.
Qed.

(** An occurrence of the token in [A ++ V ++ B], for a value [V] that is
    fresh for the token, lies in [A] or in [B]: it cannot start in [V], end
    in [V], or run over [V]. *)
Lemma occurs_app_fresh token A V B :
  value_fresh token V →
  occurs token (A ++ V ++ B) → occurs token A ∨ occurs token B.
Proof.
  unfold value_fresh.
  destruct (head token) as [a|] eqn:Ha; [|done].
  destruct (list.last token) as [z|] eqn:Hz; [|done].
  intros (Hna & Hnz & Hex) (pre & post & Heq).
  assert (0 < length token) as Hlen
    by (destruct token; [discriminate | simpl; lia]).
  rewrite head_lookup in Ha. rewrite last_lookup in Hz.
  assert (∀ k, k < length token →
               (A ++ V ++ B) !! (length pre + k) = token !! k) as Htok.
  { intros k Hk. rewrite Heq. apply lookup_occurrence. exact Hk. }
  assert (∀ k, k < length V → (A ++ V ++ B) !! (length A + k) = V !! k) as Hval.
  { intros k Hk. apply lookup_occurrence. exact Hk. }
  destruct (decide (length pre + length token ≤ length A)) as [Hleft | Hnl].
  { left. apply (occurs_at_left token A (V ++ B) (length pre)); [|exact Hleft].
    exists pre, post. auto. }
  destruct (decide (length A + length V ≤ length pre)) as [Hright | Hnr].
  { right. apply (occurs_at_occurs _ _ (length pre - length (A ++ V))).
    apply occurs_at_right; [|rewrite length_app; lia].
    rewrite <- app_assoc. exists pre, post. auto. }
  exfalso.
  destruct (decide (length A ≤ length pre)) as [Hin | Hbefore].
  - (* the occurrence starts in the value *)
    apply Hna. specialize (Htok 0 Hlen). rewrite Nat.add_0_r in Htok.
    specialize (Hval (length pre - length A) ltac:(lia)).
    replace (length A + (length pre - length A)) with (length pre) in Hval by lia.
    eapply list_elem_of_lookup_2. rewrite <- Hval, Htok. exact Ha.
  - destruct (decide (length pre + length token ≤ length A + length V))
      as [Hend | Hover].
    + (* the occurrence ends in the value *)
      apply Hnz. specialize (Htok (length token - 1) ltac:(lia)).
      specialize (Hval (length pre + (length token - 1) - length A) ltac:(lia)).
      replace (length A + (length pre + (length token - 1) - length A))
        with (length pre + (length token - 1)) in Hval by lia.
      eapply list_elem_of_lookup_2. rewrite <- Hval, Htok.
      replace (length token - 1) with (Nat.pred (length token)) by lia.
      exact Hz.
    + (* the occurrence runs over the value *)
      apply list.Exists_exists in Hex as (c & Hc & Hnc). apply Hnc.
      apply list_elem_of_lookup_1 in Hc as [k Hk].
      pose proof (lookup_lt_Some _ _ _ Hk) as Hlt.
      specialize (Hval k Hlt).
      specialize (Htok (length A + k - length pre) ltac:(lia)).
      replace (length pre + (length A + k - length pre))
        with (length A + k) in Htok by lia.
      eapply list_elem_of_lookup_2. rewrite <- Htok, Hval. exact Hk.
Qed.

Lemma occurs_interleave_fresh token value gaps rest :
  value_fresh token value →
  occurs token (interleave value gaps rest) →
  Exists (occurs token) gaps ∨ occurs token rest.
Proof.
  intros Hfresh. induction gaps as [|gap gaps IH]; simpl.
  - auto.
  - intros Hocc. apply occurs_app_fresh in Hocc as [Hgap | Hlater];
      [| |exact Hfresh].
    + left. left. exact Hgap.
    + destruct (IH Hlater) as [Hex | Hrest]; [left; right; exact Hex | auto].
Qed.

Lemma occurs_app_l token A B : occurs token A → occurs token (A ++ B).
Proof.
  intros (pre & post & ->). exists pre, (post ++ B).
  rewrite <- !app_assoc. reflexivity.
Qed.

Lemma occurs_app_r token A B : occurs token B → occurs token (A ++ B).
Proof.
  intros (pre & post & ->). exists (A ++ pre), post.
  rewrite <- !app_assoc. reflexivity.
Qed.

Lemma occurs_interleave_part token sep gaps rest :
  Exists (occurs token) gaps ∨ occurs token rest →
  occurs token (interleave sep gaps rest).
Proof.
  induction gaps as [|gap gaps IH]; simpl.
  - intros [Hex | Hrest]; [inversion Hex | exact Hrest].
  - intros [Hex | Hrest].
    + inversion Hex as [? ? Hgap | ? ? Hlater]; subst.
      * apply occurs_app_l. exact Hgap.
      * apply occurs_app_r, occurs_app_r, IH. left. exact Hlater.
    + apply occurs_app_r, occurs_app_r, IH. right. exact Hrest.
Qed.

(** With a value that is fresh for the token, no occurrence of the token
    is left. *)
Lemma ReplaceToken_fresh_removes text token value :
  value_fresh token value → ¬ occurs token (ReplaceToken text token value).
Proof.
  intros Hfresh. destruct token as [|c tk]; [done|]. unfold ReplaceToken.
  destruct (ReplaceToken_loop_interleave c tk value text)
    as (gaps & rest & _ & -> & Hgaps & Hrest).
  intros Hocc. apply occurs_interleave_fresh in Hocc as [Hex | Hr];
    [|done|exact Hfresh].
  apply list.Exists_exists in Hex as (gap & Hin & Hgap).
  rewrite list.Forall_forall in Hgaps. apply (Hgaps gap Hin).
  apply occurs_app_l. exact Hgap.
Qed.

(** With a value that is fresh for another token, a text free of that
    token stays free of it. *)
Lemma ReplaceToken_fresh_keeps other text token value :
  value_fresh other value →
  ¬ occurs other text → ¬ occurs other (ReplaceToken text token value).
Proof.
  intros Hfresh Hfree. destruct token as [|c tk]; [exact Hfree|].
  unfold ReplaceToken.
  destruct (ReplaceToken_loop_interleave c tk value text)
    as (gaps & rest & Htext & -> & _ & _).
  intros Hocc. apply Hfree. rewrite Htext.
  apply occurs_interleave_part.
  apply (occurs_interleave_fresh _ _ _ _ Hfresh Hocc).
Qed.

Lemma ReplaceToken_fresh_step tok text token value :
  value_fresh tok value →
  tok = token ∨ ¬ occurs tok text →
  ¬ occurs tok (ReplaceToken text token value).
Proof.
  intros Hfresh [-> | Hfree].
  - apply ReplaceToken_fresh_removes. exact Hfresh.
  - apply ReplaceToken_fresh_keeps; assumption.
Qed.

(** X8. A value that holds neither end of the token and some character foreign
    to it cannot be part of an occurrence: after [ReplaceToken] the text
    holds no occurrence of the token, so that replacing once more changes
    nothing, and a token that was absent before is absent after. Without
    the condition this fails: removing [{X}] from [{{X}X}] leaves [{X}]. *)
Theorem ReplaceToken_fresh (text token value : Str) :
  (value_fresh token value →
   ¬ occurs token (ReplaceToken text token value)
   ∧ ReplaceToken (ReplaceToken text token value) token value
     = ReplaceToken text token value)
  ∧ (∀ other, value_fresh other value → ¬ occurs other text →
              ¬ occurs other (ReplaceToken text token value))
  ∧ ReplaceToken (lit "{{X}X}") (lit "{X}") [] = lit "{X}".
Proof.
  split; [|split].
  - intros Hfresh.
    pose proof (ReplaceToken_fresh_removes text token value Hfresh) as Hgone.
    split; [exact Hgone|]. apply ReplaceToken_no_occurrence. exact Hgone.
  - intros other. apply ReplaceToken_fresh_keeps.
  - vm_compute. reflexivity.
Qed.

Lemma token_values_fresh tok v :
  tok ∈ placeholders → v ∈ token_values →
  value_fresh tok v ∧ opens_with_word v.
Proof.
  assert (Forall (λ v, Forall (λ tok, value_fresh tok v) placeholders
                       ∧ opens_with_word v) token_values) as Hall.
  { apply (bool_decide_unpack _). vm_compute. exact I. }
  intros Htok Hv. rewrite list.Forall_forall in Hall.
  destruct (Hall v Hv) as [Hfresh Hopens]. split; [|exact Hopens].
  rewrite list.Forall_forall in Hfresh. exact (Hfresh tok Htok).
Qed.

Lemma PickPlayerCallsign_value profile : PickPlayerCallsign profile ∈ token_values.
Proof.
  unfold token_values. rewrite !elem_of_app. left.
  unfold PickPlayerCallsign, callsigns.
  destruct (NPCVoiceProfile.role profile); apply list_elem_of_In; simpl; auto 10.
Qed.

Lemma PickLocalSpiritEpithet_value ctx : PickLocalSpiritEpithet ctx ∈ token_values.
Proof.
  unfold token_values. rewrite !elem_of_app. right. left.
  unfold PickLocalSpiritEpithet, spirit_epithets.
  destruct (DialogueContext.regionTone ctx); apply list_elem_of_In; simpl; auto 10.
Qed.

Lemma PickPlaceName_value ctx : PickPlaceName ctx ∈ token_values.
Proof.
  unfold token_values. rewrite !elem_of_app. right. right. right. left.
  unfold PickPlaceName, place_names.
  repeat case_bool_decide; apply list_elem_of_In; simpl; auto 10.
Qed.

Lemma PickBodySymptom_value ctx : PickBodySymptom ctx ∈ token_values.
Proof.
  unfold token_values. rewrite !elem_of_app. right. right. right. right.
  unfold PickBodySymptom, body_symptoms.
  destruct (DialogueContext.playerIsBleeding ctx),
    (DialogueContext.playerLowHealth ctx); apply list_elem_of_In; simpl; auto 10.
Qed.

Lemma ReplaceToken_opens_with_word text token value :
  opens_with_word text → opens_with_word value →
  opens_with_word (ReplaceToken text token value).
Proof.
  intros Ht Hv. destruct token as [|c tk]; [exact Ht|]. unfold ReplaceToken.
  rewrite ReplaceToken_loop_0.
  destruct (find_first (c :: tk) text) as [[|i]|]; [| |exact Ht].
  - rewrite take_0. destruct value; [done | exact Hv].
  - destruct text; [done | exact Ht].
Qed.

Lemma opens_with_word_spec s :
  opens_with_word s ↔ s ≠ [] ∧ s !! 0 ≠ Some " "%char.
Proof.
  destruct s as [|c s]; simpl.
  - split; [done | intros [? _]; done].
  - split.
    + intros Hc. split; [discriminate | congruence].
    + intros [_ Hc] ->. done.
Qed.

Lemma ReplaceToken_nonempty text token value :
  text ≠ [] → value ≠ [] → ReplaceToken text token value ≠ [].
Proof.
  intros Ht Hv. destruct token as [|c tk]; [exact Ht|]. unfold ReplaceToken.
  rewrite ReplaceToken_loop_0.
  destruct (find_first (c :: tk) text) as [i|]; [|exact Ht].
  intros Hnil. apply app_eq_nil in Hnil as [_ Hnil].
  apply app_eq_nil in Hnil as [Hnil _]. done.
Qed.

Section Placeholders.
Context `{!UnorderedSetOrder}.

Lemma PickTabooPhrase_value ctx : PickTabooPhrase ctx ∈ token_values.
Proof.
  unfold token_values. rewrite !elem_of_app. right. right. left.
  unfold PickTabooPhrase, taboo_phrases.
  case_bool_decide; [apply list_elem_of_In; simpl; auto 10|].
  repeat case_decide; apply list_elem_of_In; simpl; auto 10.
Qed.

Lemma SubstituteTokens_placeholder_free (t : DialogueTemplate.t)
    (ctx : DialogueContext.t) (profile : NPCVoiceProfile.t) :
  Forall (λ token, ¬ occurs token (SubstituteTokens t ctx profile)) placeholders.
Proof.
  assert (∀ tok v, tok ∈ placeholders → v ∈ token_values → value_fresh tok v)
    as Hfresh by (intros tok v Htok Hv; apply token_values_fresh; assumption).
  pose proof (PickPlayerCallsign_value profile) as H1.
  pose proof (PickLocalSpiritEpithet_value ctx) as H2.
  pose proof (PickTabooPhrase_value ctx) as H3.
  pose proof (PickPlaceName_value ctx) as H4.
  pose proof (PickBodySymptom_value ctx) as H5.
  unfold SubstituteTokens, placeholders.
  repeat apply Forall_cons; try apply Forall_nil;
    repeat (apply ReplaceToken_fresh_step;
            [ apply Hfresh; [apply list_elem_of_In; simpl; auto 10 | assumption]
            | first [left; reflexivity | right] ]).
Qed.

Lemma SubstituteTokens_opens_with_word t ctx profile :
  opens_with_word (DialogueTemplate.text t) →
  opens_with_word (SubstituteTokens t ctx profile).
Proof.
  intros Ht. unfold SubstituteTokens.
  repeat (apply ReplaceToken_opens_with_word;
          [|eapply token_values_fresh; [left|];
            first [ apply PickPlayerCallsign_value
                  | apply PickLocalSpiritEpithet_value
                  | apply PickTabooPhrase_value
                  | apply PickPlaceName_value
                  | apply PickBodySymptom_value ]]).
  exact Ht.
Qed.

Lemma SubstituteTokens_nonempty t ctx profile :
  DialogueTemplate.text t ≠ [] → SubstituteTokens t ctx profile ≠ [].
Proof.
  intros Ht. unfold SubstituteTokens.
  repeat (apply ReplaceToken_nonempty;
          [|apply opens_with_word_spec;
            eapply token_values_fresh; [left|];
            first [ apply PickPlayerCallsign_value
                  | apply PickLocalSpiritEpithet_value
                  | apply PickTabooPhrase_value
                  | apply PickPlaceName_value
                  | apply PickBodySymptom_value ]]).
  exact Ht.
Qed.
End Placeholders.

(** ** Realization: where it is defined, and how far a line can grow *)

Section Realization.
Context {R : Type} `{!RandomEngine R} `{!UnorderedSetOrder}.

Implicit Types (sys : DialogueSystem R) (ctx : DialogueContext.t).

(** X9. A template text that is not empty is realized without reading
    [back()] of an empty line or indexing the tails out of range, and the
    line is not empty, as soon as the text does not open with a space or
    the verbosity slider rules the truncation out. The integer draws are
    taken in their range. *)
Theorem RealizeTemplate_defined (t : DialogueTemplate.t) ctx
    (profile : NPCVoiceProfile.t) (g : R) :
  draws_in_range R →
  DialogueTemplate.text t ≠ [] →
  flt (NPCVoiceProfile.verbosity01 profile) (F32.ratio 3 10) = false
  ∨ DialogueTemplate.text t !! 0 ≠ Some " "%char →
  ∃ line g', RealizeTemplate t ctx profile g = inr (line, g') ∧ line ≠ [].
Proof.
  intros Hrange Htext Hsafe. unfold RealizeTemplate.
  apply ApplyStyleNoise_defined; [exact Hrange | |].
  - apply SubstituteTokens_nonempty. exact Htext.
  - destruct Hsafe as [Hverbose | Hfirst]; [left; exact Hverbose|].
    right. apply opens_with_word_spec, SubstituteTokens_opens_with_word.
    apply opens_with_word_spec. auto.
Qed.

Lemma GenerateLine_rejected sys npcId triggerTag ctx :
  rejected sys npcId triggerTag ctx →
  GenerateLine sys npcId triggerTag ctx = inr ([], sys).
Proof.
  intros [Hnone | (profile & Hp & [Hcool | Hcand])].
  - apply GenerateLine_unknown_npc. exact Hnone.
  - eapply GenerateLine_on_cooldown; eauto.
  - eapply GenerateLine_no_candidates; eauto.
Qed.

Lemma GenerateLine_safe sys npcId triggerTag ctx :
  draws_in_range R →
  pool_opens_with_words sys →
  pool_totals_allowed sys →
  ∃ line sys',
    GenerateLine sys npcId triggerTag ctx = inr (line, sys')
    ∧ (line = [] ↔ rejected sys npcId triggerTag ctx).
Proof.
  intros Hrange Hpool Htotals.
  destruct (GenerateLine_paths sys npcId triggerTag ctx)
    as [[Hrej Hwhy] | [(_ & profile & _ & Hpick)
                      | (profile & chosen & g & Hp & Hin & Heq)]].
  - exists [], sys. split; [exact Hrej|]. split; [intros _; exact Hwhy | done].
  - exfalso.
    apply PickTemplateWeighted_undefined in Hpick as (_ & _ & Hsum & Hno).
    destruct (Htotals ctx profile (MapTriggerToFunction triggerTag ctx profile));
      congruence.
  - assert (opens_with_word (DialogueTemplate.text chosen)) as Hopens.
    { unfold pool_opens_with_words in Hpool.
      rewrite list.Forall_forall in Hpool. apply Hpool.
      unfold CollectCandidates in Hin.
      apply list_elem_of_In, filter_In in Hin as [Hin _].
      apply list_elem_of_In. exact Hin. }
    destruct (ApplyStyleNoise_defined (SubstituteTokens chosen ctx profile)
                profile (DialogueTemplate.function chosen) g Hrange)
      as (line & g' & Hreal & Hline).
    { apply opens_with_word_spec, SubstituteTokens_opens_with_word, Hopens. }
    { right. apply opens_with_word_spec, SubstituteTokens_opens_with_word, Hopens. }
    unfold RealizeTemplate in Heq. rewrite Hreal in Heq.
    eexists line, _. split; [exact Heq|].
    split; [done|]. intros Hrejected.
    apply GenerateLine_rejected in Hrejected.
    rewrite Hrejected in Heq. injection Heq as <- _. done.
Qed.

Lemma reachable_pool sys :
  reachable sys → templates sys = InitializeDefaultTemplates.
Proof.
  induction 1 as [g | sys t _ IH | sys profile _ IH | sys e r s _ IH
                 | sys npcId triggerTag ctx line sys' _ IH Hgen];
    try assumption; [reflexivity|].
  destruct (GenerateLine_effect _ _ _ _ _ _ Hgen) as (_ & -> & _). exact IH.
Qed.

Lemma default_pool_opens_with_words :
  Forall (λ t, opens_with_word (DialogueTemplate.text t))
    InitializeDefaultTemplates.
Proof. apply (bool_decide_unpack _). vm_compute. exact I. Qed.

(** Whichever of the five built-in templates are kept, their weights sum
    to a bound that the distribution allows. *)
Lemma default_pool_totals_allowed (keep : DialogueTemplate.t → bool) :
  fle (sum_weights F32.zero (List.filter keep InitializeDefaultTemplates))
    F32.zero = true
  ∨ uniform_real_allowed F32.zero
      (sum_weights F32.zero (List.filter keep InitializeDefaultTemplates)) = true.
Proof.
  unfold InitializeDefaultTemplates. cbn [List.filter].
  destruct (keep t1), (keep t2), (keep t3), (keep t4), (keep t5);
    vm_compute; auto.
Qed.

(** X10. With a pool whose texts are not empty and do not open with a space
    and whose weights sum, for every list of candidates, to at most zero
    or to a bound that the distribution allows, and so in every state
    reached from the constructor, where the pool is the built-in one,
    [GenerateLine] returns a line whenever the integer draws are taken in
    their range; the line is empty exactly when the call is rejected, and
    then nothing has changed. *)
Theorem GenerateLine_defined sys npcId triggerTag ctx :
  draws_in_range R →
  (pool_opens_with_words sys ∧ pool_totals_allowed sys) ∨ reachable sys →
  ∃ line sys',
    GenerateLine sys npcId triggerTag ctx = inr (line, sys')
    ∧ (line = [] ↔ rejected sys npcId triggerTag ctx)
    ∧ (line = [] → sys' = sys).
Proof.
  intros Hrange Hpool.
  assert (pool_opens_with_words sys ∧ pool_totals_allowed sys)
    as [Hwords Htotals].
  { destruct Hpool as [Hgood | Hreach]; [exact Hgood|].
    pose proof (reachable_pool _ Hreach) as Hdefault. split.
    - unfold pool_opens_with_words. rewrite Hdefault.
      apply default_pool_opens_with_words.
    - intros ctx' profile fn. unfold CollectCandidates. rewrite Hdefault.
      apply default_pool_totals_allowed. }
  destruct (GenerateLine_safe sys npcId triggerTag ctx Hrange Hwords Htotals)
    as (line & sys' & Hgen & Hiff).
  exists line, sys'. split; [exact Hgen|]. split; [exact Hiff|].
  intros Hline. apply Hiff, GenerateLine_rejected in Hline.
  rewrite Hline in Hgen. injection Hgen as _ <-. reflexivity.
Qed.
End Realization.

Section StyleBounds.
Context {R : Type} `{!RandomEngine R}.

Lemma StyleTruncate_length line profile (g : R) :
  length (StyleTruncate line profile g).1 ≤ length line + 2.
Proof.
  unfold StyleTruncate.
  destruct (flt _ _); [|simpl; lia].
  destruct (decide (60 < length line)) as [Hlong|]; [|simpl; lia].
  destruct (rfind line " "%char 60) as [cutPos|] eqn:Hcut; [|simpl; lia].
  apply rfind_Some in Hcut as [Hle _]. unfold erase.
  destruct (RNG.Chance _ g) as [[|] g']; simpl;
    rewrite ?length_app, length_take; simpl; lia.
Qed.

Lemma StyleFatalism_length line profile fn (g : R) line' g' :
  StyleFatalism line profile fn g = inr (line', g') →
  length line' ≤
    length line
    + (if bool_decide (fn = Dread) || bool_decide (fn = Rumor) then 28 else 0).
Proof.
  unfold StyleFatalism.
  destruct (fgt _ _); [|intros [= <- _]; lia].
  destruct (RNG.Chance _ g) as [[|] g1]; [|intros [= <- _]; lia].
  destruct (bool_decide (fn = Dread) || bool_decide (fn = Rumor));
    [|intros [= <- _]; lia].
  destruct (RNG.RandomInt _ _ g1) as [idx g2].
  destruct (decide (0 ≤ idx)%Z); [|discriminate].
  destruct (tails !! Z.to_nat idx) as [tail|] eqn:Htail; [|discriminate].
  intros [= <- _]. rewrite length_app.
  assert (Forall (λ tail, length tail ≤ 28) tails) as Hall
    by (apply (bool_decide_unpack _); vm_compute; exact I).
  rewrite list.Forall_forall in Hall.
  specialize (Hall tail (list_elem_of_lookup_2 _ _ _ Htail)). lia.
Qed.

Lemma StyleBureaucratic_length line profile fn (g : R) :
  length (StyleBureaucratic line profile fn g).1 ≤
    length line + (if bool_decide (fn = Bureaucratic) then 26 else 0).
Proof.
  unfold StyleBureaucratic.
  destruct (fgt _ _); simpl; [|lia].
  destruct (bool_decide (fn = Bureaucratic)); simpl; [|lia].
  destruct (RNG.Chance _ g) as [[|] g1]; simpl; lia.
Qed.

Lemma StyleSuperstition_length line profile (g : R) line' g' :
  StyleSuperstition line profile g = inr (line', g') →
  length line' ≤ length line + 18.
Proof.
  unfold StyleSuperstition.
  destruct (fgt _ _); [|intros [= <- _]; lia].
  destruct (RNG.Chance _ g) as [[|] g1]; [|intros [= <- _]; lia].
  destruct (list.last line) as [c|] eqn:Hlast; [|discriminate].
  intros [= <- _]. rewrite length_app. simpl.
  destruct (decide (c = "."%char)); [|lia].
  assert (0 < length line) by (destruct line; [discriminate | simpl; lia]).
  unfold set_back. rewrite length_app, length_take.
  change (length [" "%char]) with 1. lia.
Qed.

(** X11. The style pass lengthens a line by at most 48 bytes: 2 for a cut with
    the ellipsis, 28 for the longest resigned tail or 26 for the prefix,
    which no category gets both, and 18 for the closing fragment. *)
Theorem ApplyStyleNoise_length (line : Str) (profile : NPCVoiceProfile.t)
    (fn : DialogueFunction) (g : R) (line' : Str) (g' : R) :
  ApplyStyleNoise line profile fn g = inr (line', g') →
  length line' ≤ length line + 48.
Proof.
  unfold ApplyStyleNoise.
  pose proof (StyleTruncate_length line profile g) as H1.
  destruct (StyleTruncate line profile g) as [line1 g1]. simpl in H1.
  destruct (StyleFatalism line1 profile fn g1) as [ub | [line2 g2]] eqn:Hfatal;
    [discriminate|].
  apply StyleFatalism_length in Hfatal.
  pose proof (StyleBureaucratic_length line2 profile fn g2) as H3.
  destruct (StyleBureaucratic line2 profile fn g2) as [line3 g3]. simpl in H3.
  intros Hsup. apply StyleSuperstition_length in Hsup.
  destruct fn; simpl in Hfatal, H3; lia.
Qed.

(** X12. A profile whose sliders stay at or below the four thresholds turns the
    style pass off: the line comes back as it was and nothing is drawn. *)
Theorem ApplyStyleNoise_neutral (line : Str) (profile : NPCVoiceProfile.t)
    (fn : DialogueFunction) (g : R) :
  flt (NPCVoiceProfile.verbosity01 profile) (F32.ratio 3 10) = false →
  fgt (NPCVoiceProfile.fatalism01 profile) (F32.ratio 6 10) = false →
  fgt (NPCVoiceProfile.bureaucratic01 profile) (F32.ratio 5 10) = false →
  fgt (NPCVoiceProfile.superstition01 profile) (F32.ratio 7 10) = false →
  ApplyStyleNoise line profile fn g = inr (line, g).
Proof.
  intros Hv Hf Hb Hs.
  unfold ApplyStyleNoise, StyleTruncate, StyleFatalism, StyleBureaucratic,
    StyleSuperstition.
  rewrite Hv, Hf, Hb, Hs. reflexivity.
Qed.
End StyleBounds.

(** ** The loader: parsers, guardrail, validation *)

Lemma tolower_idempotent c : tolower (tolower c) = tolower c.
Proof. destruct c as [[] [] [] [] [] [] [] []]; reflexivity. Qed.

Lemma ToLower_idempotent s : ToLower (ToLower s) = ToLower s.
Proof.
  unfold ToLower. rewrite map_map. apply map_ext. apply tolower_idempotent.
Qed.

(** X13. Each parser reads the name of an enumerator, as the source spells it,
    back to that enumerator, and does not tell upper from lower case. *)
Theorem Parse_round_trip :
  (∀ f, ParseFunction (function_name f) = f)
  ∧ (∀ r, ParseReliability (reliability_name r) = r)
  ∧ (∀ tone, ParseRegionTone (tone_name tone) = tone)
  ∧ (∀ role, ParseRole (role_name role) = role)
  ∧ (∀ s, ParseFunction (ToLower s) = ParseFunction s
          ∧ ParseReliability (ToLower s) = ParseReliability s
          ∧ ParseRegionTone (ToLower s) = ParseRegionTone s
          ∧ ParseRole (ToLower s) = ParseRole s).
Proof.
  split; [intros []; vm_compute; reflexivity|].
  split; [intros []; vm_compute; reflexivity|].
  split; [intros []; vm_compute; reflexivity|].
  split; [intros []; vm_compute; reflexivity|].
  intros s. unfold ParseFunction, ParseReliability, ParseRegionTone, ParseRole.
  rewrite ToLower_idempotent. auto.
Qed.

(** X14. A string that is the name of no enumerator, in any letter case, is not
    refused: it parses to the first category, the unknown reliability, the
    forest village and the villager. *)
Theorem Parse_fallback (s : Str) :
  ((∀ f, ToLower s ≠ ToLower (function_name f)) →
   ParseFunction s = NeutralAmbient)
  ∧ ((∀ r, ToLower s ≠ ToLower (reliability_name r)) →
     ParseReliability s = Unknown)
  ∧ ((∀ tone, ToLower s ≠ ToLower (tone_name tone)) →
     ParseRegionTone s = ForestVillage)
  ∧ ((∀ role, ToLower s ≠ ToLower (role_name role)) →
     ParseRole s = Villager).
Proof.
  repeat match goal with |- _ ∧ _ => split end; intros Hno.
  - unfold ParseFunction.
    rewrite (decide_False (P := _ = lit "neutralambient")) by exact (Hno NeutralAmbient).
    rewrite (decide_False (P := _ = lit "dread")) by exact (Hno Dread).
    rewrite (decide_False (P := _ = lit "misdirection")) by exact (Hno Misdirection).
    rewrite (decide_False (P := _ = lit "ritualhint")) by exact (Hno RitualHint).
    rewrite (decide_False (P := _ = lit "rumor")) by exact (Hno Rumor).
    rewrite (decide_False (P := _ = lit "bureaucratic")) by exact (Hno Bureaucratic).
    rewrite (decide_False (P := _ = lit "threatbark")) by exact (Hno ThreatBark).
    rewrite (decide_False (P := _ = lit "pain")) by exact (Hno Pain).
    rewrite (decide_False (P := _ = lit "surprise")) by exact (Hno Surprise).
    reflexivity.
  - unfold ParseReliability.
    rewrite (decide_False (P := _ = lit "truthful")) by exact (Hno Truthful).
    rewrite (decide_False (P := _ = lit "partial")) by exact (Hno Partial).
    rewrite (decide_False (P := _ = lit "knownfalse")) by exact (Hno KnownFalse).
    reflexivity.
  - unfold ParseRegionTone.
    rewrite (decide_False (P := _ = lit "forestvillage")) by exact (Hno ForestVillage).
    rewrite (decide_False (P := _ = lit "sovietapartment")) by exact (Hno SovietApartment).
    rewrite (decide_False (P := _ = lit "industrialblock")) by exact (Hno IndustrialBlock).
    rewrite (decide_False (P := _ = lit "borderoutpost")) by exact (Hno BorderOutpost).
    reflexivity.
  - unfold ParseRole.
    rewrite (decide_False (P := _ = lit "villager")) by exact (Hno Villager).
    rewrite (decide_False (P := _ = lit "bureaucrat")) by exact (Hno Bureaucrat).
    rewrite (decide_False (P := _ = lit "priest")) by exact (Hno Priest).
    rewrite (decide_False (P := _ = lit "smuggler")) by exact (Hno Smuggler).
    rewrite (decide_False (P := _ = lit "soldier")) by exact (Hno Soldier).
    rewrite (decide_False (P := _ = lit "doctor")) by exact (Hno Doctor).
    rewrite (decide_False (P := _ = lit "hermit")) by exact (Hno Hermit).
    reflexivity.
Qed.

Lemma find_first_occurs token s : find_first token s ≠ None ↔ occurs token s.
Proof.
  destruct (find_first token s) as [i|] eqn:Hf.
  - split; [intros _ | done].
    destruct (find_first_Some _ _ _ Hf) as (post & Heq & _). eexists _, _. exact Heq.
  - split; [done|]. intros Hocc. apply find_first_None in Hf. done.
Qed.

(** X15. The guardrail turns a text down exactly when the trademark sign or the
    registered sign occurs in it. *)
Theorem ContainsForbiddenIPTokens_spec (text : Str) :
  ContainsForbiddenIPTokens text = true
  ↔ occurs (lit "™") text ∨ occurs (lit "®") text.
Proof.
  unfold ContainsForbiddenIPTokens, forbiddenMarkers. cbn [existsb].
  rewrite orb_false_r, orb_true_iff, !bool_decide_eq_true, !find_at_0.
  rewrite !find_first_occurs. reflexivity.
Qed.

Lemma HasTaboo_spec kg id :
  LorewayKGView.HasTaboo kg id = true ↔ id ∈ LorewayKGView.tabooIds kg.
Proof.
  unfold LorewayKGView.HasTaboo, LorewayKGView.count.
  case_decide; simpl; split; done.
Qed.

Lemma HasEvent_spec kg id :
  LorewayKGView.HasEvent kg id = true ↔ id ∈ LorewayKGView.eventIds kg.
Proof.
  unfold LorewayKGView.HasEvent, LorewayKGView.count.
  case_decide; simpl; split; done.
Qed.

Lemma push_missing (has : Str → bool) (X : gset Str) (warning : Str → Str)
    (out : list Str) (ids : list Str) :
  (∀ id, has id = true ↔ id ∈ X) →
  foldl (λ out id, if negb (has id) then out ++ [warning id] else out) out ids
  = out ++ map warning (filter (λ id, id ∉ X) ids).
Proof.
  intros Hhas. revert out. induction ids as [|id ids IH]; intros out; simpl.
  - rewrite app_nil_r. reflexivity.
  - rewrite IH, filter_cons. specialize (Hhas id).
    destruct (has id); simpl.
    + rewrite decide_False by (intros Hn; apply Hn, Hhas; reflexivity).
      reflexivity.
    + rewrite decide_True by (intros Hin; apply Hhas in Hin; discriminate).
      simpl. rewrite <- app_assoc. reflexivity.
Qed.

Lemma ValidateKGLinks_eq t kg outWarnings :
  ValidateKGLinks t kg outWarnings
  = outWarnings
    ++ map (missing_taboo_warning t)
         (filter (λ tb, tb ∉ LorewayKGView.tabooIds kg)
            (DialogueTemplate.requiredTabooIds t))
    ++ map (missing_event_warning t)
         (filter (λ ev, ev ∉ LorewayKGView.eventIds kg)
            (DialogueTemplate.requiredEventIds t)).
Proof.
  unfold ValidateKGLinks.
  rewrite (push_missing (LorewayKGView.HasTaboo kg) (LorewayKGView.tabooIds kg))
    by apply HasTaboo_spec.
  rewrite (push_missing (LorewayKGView.HasEvent kg) (LorewayKGView.eventIds kg))
    by apply HasEvent_spec.
  rewrite <- app_assoc. reflexivity.
Qed.

Lemma filter_missing_nil (X : gset Str) (ids : list Str) :
  filter (λ id, id ∉ X) ids = [] ↔ Forall (λ id, id ∈ X) ids.
Proof.
  induction ids as [|id ids IH]; [split; [constructor | reflexivity]|].
  rewrite filter_cons, Forall_cons_iff.
  destruct (decide (id ∉ X)) as [Hout | Hin].
  - split; [discriminate | intros [? _]; done].
  - apply dec_stable in Hin. rewrite IH. tauto.
Qed.

(** X16. The validation only warns: the warnings are those of before, then one
    for each required taboo that the knowledge graph does not hold, in the
    order of the template, then one for each such required event. Nothing
    is added exactly when every required taboo and event is known;
    disallowed locations are never looked at. *)
Theorem ValidateKGLinks_spec (t : DialogueTemplate.t) (kg : LorewayKGView.t)
    (outWarnings : list Str) :
  ValidateKGLinks t kg outWarnings
  = outWarnings
    ++ map (missing_taboo_warning t)
         (filter (λ tb, tb ∉ LorewayKGView.tabooIds kg)
            (DialogueTemplate.requiredTabooIds t))
    ++ map (missing_event_warning t)
         (filter (λ ev, ev ∉ LorewayKGView.eventIds kg)
            (DialogueTemplate.requiredEventIds t))
  ∧ (ValidateKGLinks t kg outWarnings = outWarnings
     ↔ Forall (λ tb, tb ∈ LorewayKGView.tabooIds kg)
         (DialogueTemplate.requiredTabooIds t)
       ∧ Forall (λ ev, ev ∈ LorewayKGView.eventIds kg)
           (DialogueTemplate.requiredEventIds t)).
Proof.
  split; [apply ValidateKGLinks_eq|].
  rewrite ValidateKGLinks_eq.
  rewrite <- (filter_missing_nil (LorewayKGView.tabooIds kg)),
    <- (filter_missing_nil (LorewayKGView.eventIds kg)).
  split.
  - intros Heq. rewrite <- (app_nil_r outWarnings) in Heq at 2.
    apply app_inv_head, app_eq_nil in Heq as [Htb Hev].
    apply map_eq_nil in Htb, Hev. auto.
  - intros [-> ->]. simpl. apply app_nil_r.
Qed.

(** X17. The condition compiled from the flags of a unit is absent exactly when
    no flag is set and the minimum threat is not at least zero; when
    present, it holds exactly when the night is there if required, the
    player bleeds if required, and the threat level is not below the
    minimum, rounded to single precision, if there is one. *)
Theorem unit_condition_spec (requiresNight requiresPlayerBleed : bool)
    (minThreat : spec_float) :
  (unit_condition requiresNight requiresPlayerBleed minThreat = None
   ↔ requiresNight = false ∧ requiresPlayerBleed = false
     ∧ fge minThreat (F64.of_Z 0) = false)
  ∧ (∀ condition ctx profile,
       unit_condition requiresNight requiresPlayerBleed minThreat
         = Some condition →
       (condition ctx profile = true
        ↔ (requiresNight = true → DialogueContext.isNight ctx = true)
          ∧ (requiresPlayerBleed = true →
             DialogueContext.playerIsBleeding ctx = true)
          ∧ (fge minThreat (F64.of_Z 0) = true →
             flt (DialogueContext.threatLevel01 ctx) (float_of_double minThreat)
               = false)))
  ∧ fge (F64.of_Z (-1)) (F64.of_Z 0) = false.
Proof.
  unfold unit_condition. split; [|split; [|reflexivity]].
  - destruct requiresNight, requiresPlayerBleed, (fge minThreat (F64.of_Z 0));
      simpl; intuition congruence.
  - intros condition ctx profile.
    destruct requiresNight, requiresPlayerBleed, (fge minThreat (F64.of_Z 0));
      simpl; intros [= <-];
      destruct (DialogueContext.isNight ctx),
        (DialogueContext.playerIsBleeding ctx),
        (flt (DialogueContext.threatLevel01 ctx) (float_of_double minThreat));
      simpl; intuition congruence.
Qed.

Section LoaderProperties.
Context {Value : Type} `{!JsonLite.Api Value}.

Lemma LoadUnit_step path kg added outWarnings (node : Value) :
  ∃ new more,
    LoadUnit path kg (added, outWarnings) node
      = (added ++ new, outWarnings ++ more)
    ∧ length new ≤ 1
    ∧ Forall accepted_unit new.
Proof.
  unfold LoadUnit.
  destruct (negb (JsonLite.IsObject node)).
  { exists [], []. rewrite !app_nil_r. auto. }
  destruct (bool_decide (JsonLite.GetString node (lit "id") [] = [])) eqn:Hid.
  { eexists [], [_]. rewrite app_nil_r. simpl. auto. }
  destruct (bool_decide (JsonLite.GetString node (lit "text") [] = [])) eqn:Htext.
  { eexists [], [_]. rewrite app_nil_r. simpl. auto. }
  simpl orb. cbv iota.
  destruct (ContainsForbiddenIPTokens (JsonLite.GetString node (lit "text") []))
    eqn:Hguard.
  { eexists [], [_]. rewrite app_nil_r. simpl. auto. }
  rewrite ValidateKGLinks_eq.
  eexists [_], _. split; [reflexivity|]. split; [simpl; lia|].
  constructor; [|constructor].
  apply bool_decide_eq_false in Hid, Htext.
  split; [exact Hid|]. split; [exact Htext | exact Hguard].
Qed.

Lemma LoadUnits_fold path kg (nodes : list Value) added outWarnings :
  ∃ new more,
    foldl (LoadUnit path kg) (added, outWarnings) nodes
      = (added ++ new, outWarnings ++ more)
    ∧ length new ≤ length nodes
    ∧ Forall accepted_unit new.
Proof.
  revert added outWarnings.
  induction nodes as [|node nodes IH]; intros added outWarnings; cbn [foldl].
  - exists [], []. rewrite !app_nil_r. simpl. auto.
  - destruct (LoadUnit_step path kg added outWarnings node)
      as (new1 & more1 & -> & Hlen1 & Hok1).
    destruct (IH (added ++ new1) (outWarnings ++ more1))
      as (new2 & more2 & -> & Hlen2 & Hok2).
    exists (new1 ++ new2), (more1 ++ more2). rewrite !app_assoc.
    split; [reflexivity|]. split; [rewrite length_app; simpl; lia|].
    apply Forall_app. auto.
Qed.

(** X18. The loader succeeds exactly when the file opens and its content parses
    to an array. On failure it registers nothing and adds one warning.
    In every case the warnings of before are kept, in front; at most one
    template is registered per element of the array; and every template
    registered has an identifier and a text that are not empty, and a text
    that passes the guardrail. *)
Theorem LoadDialogueUnitsFromFile_spec (file : option Str) (path : Str)
    (kg : LorewayKGView.t) (outWarnings : list Str)
    (ok : bool) (added : list DialogueTemplate.t) (warnings : list Str) :
  LoadDialogueUnitsFromFile file path kg outWarnings = (ok, added, warnings) →
  (ok = true
   ↔ ∃ content root,
       file = Some content ∧ JsonLite.Parse content = Some root
       ∧ JsonLite.IsArray root = true)
  ∧ (ok = false → added = [] ∧ ∃ warning, warnings = outWarnings ++ [warning])
  ∧ outWarnings `prefix_of` warnings
  ∧ Forall accepted_unit added
  ∧ (∀ content root,
       file = Some content → JsonLite.Parse content = Some root →
       length added ≤ JsonLite.Size root).
Proof.
  unfold LoadDialogueUnitsFromFile.
  destruct file as [content|].
  2: { intros [= <- <- <-]. split; [split; [done | intros (? & ? & ? & _); done]|].
       split; [eauto|]. split; [eexists; reflexivity|].
       split; [constructor | intros ? ? ?; done]. }
  destruct (JsonLite.Parse content) as [root|] eqn:Hparse.
  2: { intros [= <- <- <-].
       split; [split; [done | intros (? & ? & [= <-] & ? & _); congruence]|].
       split; [eauto|]. split; [eexists; reflexivity|].
       split; [constructor | intros ? ? [= <-]; congruence]. }
  destruct (JsonLite.IsArray root) eqn:Harray; simpl.
  2: { intros [= <- <- <-].
       split; [split; [done | intros (? & ? & [= <-] & ? & ?); congruence]|].
       split; [eauto|]. split; [eexists; reflexivity|].
       split; [constructor | intros ? ? _ _; simpl; lia]. }
  destruct (LoadUnits_fold path kg
              (map (JsonLite.at_index root) (seq 0 (JsonLite.Size root)))
              [] outWarnings) as (new & more & -> & Hlen & Hok).
  intros [= <- <- <-].
  split; [split; [eauto | reflexivity]|].
  split; [discriminate|]. split; [eexists; reflexivity|].
  split; [exact Hok|].
  intros ? root' [= <-] Hroot. rewrite Hparse in Hroot. injection Hroot as <-.
  rewrite length_map, length_seq in Hlen. exact Hlen.
Qed.
End LoaderProperties.

(** ** Cooldowns and NaN *)

Lemma fge_nan_l x : fge S754_nan x = false.
Proof. destruct x; reflexivity. Qed.

Lemma fge_nan_r x : fge x S754_nan = false.
Proof. destruct x; reflexivity. Qed.

Lemma F64_sub_nan_l y : F64.sub S754_nan y = S754_nan.
Proof. destruct y; reflexivity. Qed.

Lemma F64_sub_nan_r x : F64.sub x S754_nan = S754_nan.
Proof. destruct x; reflexivity. Qed.

(** X19. A pair with a positive cooldown and an entry in the ledger cannot fire
    while the clock or the cooldown is NaN; and when the entry itself is
    NaN, a line having been spoken under a NaN clock, the pair cannot fire
    at any later time either. *)
Theorem CanFire_nan {R} (sys : DialogueSystem R) (profile : NPCVoiceProfile.t)
    (fn : DialogueFunction) (lastTime : spec_float) :
  lastFireTimestamps sys !! (NPCVoiceProfile.npcId profile, fn) = Some lastTime →
  fle (configured_cooldown profile fn) F32.zero = false →
  (currentTimeSeconds sys = S754_nan ∨ configured_cooldown profile fn = S754_nan →
   CanFire sys profile fn = false)
  ∧ (lastTime = S754_nan →
     ∀ t, CanFire (SetCurrentTimeSeconds sys t) profile fn = false).
Proof.
  intros Hlast Hpos. unfold CanFire, configured_cooldown in *. simpl.
  destruct (NPCVoiceProfile.cooldownSeconds profile !! fn) as [c|];
    simpl in Hpos |- *; [|discriminate].
  rewrite Hpos, Hlast. split.
  - intros [-> | ->].
    + rewrite F64_sub_nan_l, fge_nan_l. reflexivity.
    + change (F64.of_float S754_nan) with S754_nan.
      rewrite fge_nan_r. reflexivity.
  - intros -> t. rewrite F64_sub_nan_r, fge_nan_l. reflexivity.
Qed.

(** ** No placeholder reaches the line *)

Lemma occurs_app_fresh_r token A V :
  value_fresh token V → occurs token (A ++ V) → occurs token A.
Proof.
  intros Hfresh Hocc. rewrite <- (app_nil_r V) in Hocc.
  apply occurs_app_fresh in Hocc as [HA | Hnil]; [exact HA | | exact Hfresh].
  apply occurs_nil in Hnil. subst. done.
Qed.

Lemma occurs_app_fresh_l token V B :
  value_fresh token V → occurs token (V ++ B) → occurs token B.
Proof.
  intros Hfresh Hocc.
  apply (occurs_app_fresh token [] V B Hfresh) in Hocc as [Hnil | HB];
    [|exact HB].
  apply occurs_nil in Hnil. subst. done.
Qed.

Lemma occurs_take token n s : occurs token (take n s) → occurs token s.
Proof.
  intros Hocc. rewrite <- (take_drop n s). apply occurs_app_l. exact Hocc.
Qed.

Lemma style_strings_fresh tok v :
  tok ∈ placeholders → v ∈ style_strings → value_fresh tok v.
Proof.
  assert (Forall (λ v, Forall (λ tok, value_fresh tok v) placeholders)
            style_strings) as Hall.
  { apply (bool_decide_unpack _). vm_compute. exact I. }
  intros Htok Hv. rewrite list.Forall_forall in Hall.
  specialize (Hall v Hv). rewrite list.Forall_forall in Hall.
  exact (Hall tok Htok).
Qed.

Section PlaceholderFree.
Context {R : Type} `{!RandomEngine R}.

Lemma StyleTruncate_free tok line profile (g : R) :
  tok ∈ placeholders → ¬ occurs tok line →
  ¬ occurs tok (StyleTruncate line profile g).1.
Proof.
  intros Htok Hfree. unfold StyleTruncate.
  destruct (flt _ _); [|exact Hfree].
  destruct (decide (60 < length line)); [|exact Hfree].
  destruct (rfind line " "%char 60) as [cutPos|]; [|exact Hfree].
  unfold erase.
  destruct (RNG.Chance _ g) as [[|] g']; cbn [fst]; intros Hocc; apply Hfree.
  - apply occurs_app_fresh_r in Hocc; [eapply occurs_take; exact Hocc|].
    apply style_strings_fresh; [exact Htok|]. left.
  - eapply occurs_take. exact Hocc.
Qed.

Lemma StyleFatalism_free tok line profile fn (g : R) line' g' :
  tok ∈ placeholders → ¬ occurs tok line →
  StyleFatalism line profile fn g = inr (line', g') →
  ¬ occurs tok line'.
Proof.
  intros Htok Hfree. unfold StyleFatalism.
  destruct (fgt _ _); [|intros [= <- _]; exact Hfree].
  destruct (RNG.Chance _ g) as [[|] g1]; [|intros [= <- _]; exact Hfree].
  destruct (bool_decide (fn = Dread) || bool_decide (fn = Rumor));
    [|intros [= <- _]; exact Hfree].
  destruct (RNG.RandomInt _ _ g1) as [idx g2].
  destruct (decide (0 ≤ idx)%Z); [|discriminate].
  destruct (tails !! Z.to_nat idx) as [tail|] eqn:Htail; [|discriminate].
  intros [= <- _] Hocc. apply Hfree.
  apply occurs_app_fresh_r in Hocc; [exact Hocc|].
  apply style_strings_fresh; [exact Htok|].
  unfold style_strings. apply elem_of_app. right.
  eapply list_elem_of_lookup_2. exact Htail.
Qed.

Lemma StyleBureaucratic_free tok line profile fn (g : R) :
  tok ∈ placeholders → ¬ occurs tok line →
  ¬ occurs tok (StyleBureaucratic line profile fn g).1.
Proof.
  intros Htok Hfree. unfold StyleBureaucratic.
  destruct (fgt _ _ && bool_decide (fn = Bureaucratic)); [|exact Hfree].
  destruct (RNG.Chance _ g) as [[|] g1]; cbn [fst]; [|exact Hfree].
  intros Hocc. apply Hfree.
  apply occurs_app_fresh_l in Hocc; [exact Hocc|].
  apply style_strings_fresh; [exact Htok|]. right. left.
Qed.

Lemma StyleSuperstition_free tok line profile (g : R) line' g' :
  tok ∈ placeholders → ¬ occurs tok line →
  StyleSuperstition line profile g = inr (line', g') →
  ¬ occurs tok line'.
Proof.
  intros Htok Hfree. unfold StyleSuperstition.
  destruct (fgt _ _); [|intros [= <- _]; exact Hfree].
  destruct (RNG.Chance _ g) as [[|] g1]; [|intros [= <- _]; exact Hfree].
  destruct (list.last line) as [c|]; [|discriminate].
  intros [= <- _] Hocc. apply Hfree.
  apply occurs_app_fresh_r in Hocc;
    [|apply style_strings_fresh; [exact Htok|]; right; right; left].
  destruct (decide (c = "."%char)); [|exact Hocc].
  unfold set_back in Hocc.
  apply occurs_app_fresh_r in Hocc;
    [|apply style_strings_fresh; [exact Htok|]; right; right; right; left].
  eapply occurs_take. exact Hocc.
Qed.

Lemma ApplyStyleNoise_free tok line profile fn (g : R) line' g' :
  tok ∈ placeholders → ¬ occurs tok line →
  ApplyStyleNoise line profile fn g = inr (line', g') →
  ¬ occurs tok line'.
Proof.
  intros Htok Hfree. unfold ApplyStyleNoise.
  pose proof (StyleTruncate_free tok line profile g Htok Hfree) as H1.
  destruct (StyleTruncate line profile g) as [line1 g1]. simpl in H1.
  destruct (StyleFatalism line1 profile fn g1) as [ub | [line2 g2]] eqn:Hfatal;
    [discriminate|].
  pose proof (StyleFatalism_free _ _ _ _ _ _ _ Htok H1 Hfatal) as H2.
  pose proof (StyleBureaucratic_free tok line2 profile fn g2 Htok H2) as H3.
  destruct (StyleBureaucratic line2 profile fn g2) as [line3 g3]. simpl in H3.
  apply StyleSuperstition_free; assumption.
Qed.

Context `{!UnorderedSetOrder}.

Lemma RealizeTemplate_free t ctx profile (g : R) line g' :
  RealizeTemplate t ctx profile g = inr (line, g') →
  Forall (λ token, ¬ occurs token line) placeholders.
Proof.
  intros Hreal. apply list.Forall_forall. intros tok Htok.
  unfold RealizeTemplate in Hreal.
  eapply ApplyStyleNoise_free; [exact Htok | | exact Hreal].
  pose proof (SubstituteTokens_placeholder_free t ctx profile) as Hsub.
  rewrite list.Forall_forall in Hsub. exact (Hsub tok Htok).
Qed.

(** X20. None of the five placeholders is ever left in a line: not after the
    substitution phase, whatever the template text, the context and the
    profile, since no value brings a placeholder in or closes one with the
    text around it; not after the style pass, which adds no brace; and so
    not in what [GenerateLine] returns. *)
Theorem RealizeTemplate_no_placeholder :
  (∀ t ctx profile,
     Forall (λ token, ¬ occurs token (SubstituteTokens t ctx profile))
       placeholders)
  ∧ (∀ t ctx profile (g : R) line g',
       RealizeTemplate t ctx profile g = inr (line, g') →
       Forall (λ token, ¬ occurs token line) placeholders)
  ∧ (∀ (sys : DialogueSystem R) npcId triggerTag ctx line sys',
       GenerateLine sys npcId triggerTag ctx = inr (line, sys') →
       Forall (λ token, ¬ occurs token line) placeholders).
Proof.
  split; [apply SubstituteTokens_placeholder_free|].
  split; [apply RealizeTemplate_free|].
  intros sys npcId triggerTag ctx line sys' Hgen.
  destruct (GenerateLine_paths sys npcId triggerTag ctx)
    as [[Hrej _] | [[Hub _] | (profile & chosen & g & _ & _ & Heq)]].
  - rewrite Hrej in Hgen. injection Hgen as <- _.
    apply list.Forall_forall. intros tok Htok Hocc.
    apply occurs_nil in Hocc. subst.
    unfold placeholders in Htok. rewrite !elem_of_cons in Htok.
    rewrite elem_of_nil in Htok. intuition discriminate.
  - rewrite Hub in Hgen. discriminate.
  - rewrite Heq in Hgen.
    destruct (RealizeTemplate chosen ctx profile g) as [ub | [line' g']] eqn:Hreal;
      [discriminate|].
    injection Hgen as <- _. eapply RealizeTemplate_free. exact Hreal.
Qed.
End PlaceholderFree.

(** ** The guard of [ReplaceToken] *)

Lemma loop_run_empty_token value text pos res :
  pos ≤ length text → ¬ loop_run [] value text pos res.
Proof.
  intros Hle Hrun. remember [] as token eqn:Htok in Hrun.
  induction Hrun as [text pos Hf | text pos p res Hf _ IH]; subst.
  - rewrite (find_from _ _ _ Hle) in Hf. simpl in Hf.
    destruct (drop pos text); discriminate.
  - rewrite (find_from _ _ _ Hle) in Hf.
    assert (p = pos) as ->.
    { destruct (drop pos text); simpl in Hf; injection Hf as <-; lia. }
    apply IH.
    unfold replace. rewrite !length_app, length_take, length_drop. simpl. lia.
Qed.

(** X21. What the guard of [ReplaceToken] is for: the loop entered with an
    empty token never leaves, whatever the value and the text, since the
    empty token is found at every position up to the end of the text and
    a round moves the position by the length of the value only. With the
    guard the text is returned at once. *)
Theorem ReplaceToken_guard (value text : Str) :
  (∀ pos res, pos ≤ length text → ¬ loop_run [] value text pos res)
  ∧ ReplaceToken text [] value = text
  ∧ ReplaceToken_run text [] value text.
Proof.
  split; [intros pos res; apply loop_run_empty_token|].
  split; [reflexivity|]. apply run_empty_token. reflexivity.
Qed.

(** ** Weights that are not numbers *)

Lemma F32_add_nan_l y : F32.add S754_nan y = S754_nan.
Proof. destruct y; reflexivity. Qed.

Lemma F32_add_nan_r x : F32.add x S754_nan = S754_nan.
Proof. destruct x as [[]|[]| |[]]; reflexivity. Qed.

Lemma sum_weights_nan candidates : sum_weights S754_nan candidates = S754_nan.
Proof.
  unfold sum_weights. induction candidates as [|t rest IH]; [reflexivity|].
  cbn [foldl]. rewrite F32_add_nan_l. exact IH.
Qed.

Lemma pick_scan_nan roll candidates : pick_scan roll S754_nan candidates = None.
Proof.
  induction candidates as [|t rest IH]; [reflexivity|].
  cbn [pick_scan]. rewrite F32_add_nan_l.
  replace (fle roll S754_nan) with false by (destruct roll; reflexivity).
  exact IH.
Qed.

Section NanWeights.
Context {R : Type} `{!RandomEngine R}.

(** X22. A first candidate whose weight is NaN switches the weights off:
    the sum is NaN, which is not at most zero, so a draw is asked for
    between 0 and NaN, bounds that [std::uniform_real_distribution] does
    not allow, and the selector is undefined there. Whatever value a draw
    would give, no running sum reaches it, whatever the other weights: the
    scan ends without a candidate, and the return that is left is the one
    of the last candidate. *)
Theorem PickTemplateWeighted_nan_weight (first : DialogueTemplate.t)
    (rest : list DialogueTemplate.t) (g : R) :
  DialogueTemplate.weight first = S754_nan →
  sum_weights F32.zero (first :: rest) = S754_nan
  ∧ fle (sum_weights F32.zero (first :: rest)) F32.zero = false
  ∧ PickTemplateWeighted (first :: rest) g = inl DistributionBounds
  ∧ ∀ roll, pick_scan roll F32.zero (first :: rest) = None.
Proof.
  intros Hnan.
  assert (sum_weights F32.zero (first :: rest) = S754_nan) as Hsum.
  { unfold sum_weights. cbn [foldl]. rewrite Hnan, F32_add_nan_r.
    apply sum_weights_nan. }
  split; [exact Hsum|]. split; [rewrite Hsum; reflexivity|]. split.
  - unfold PickTemplateWeighted. rewrite Hsum. reflexivity.
  - intros roll. cbn [pick_scan]. rewrite Hnan, F32_add_nan_r.
    replace (fle roll S754_nan) with false by (destruct roll; reflexivity).
    apply pick_scan_nan.
Qed.
End NanWeights.

(** ** The properties on the scenarios *)

(** The lie about the disappearances needs the well collapse: in a context
    without recent events it is no candidate. *)
Lemma CollectCandidates_filter_witness :
  lit "EV_WELL_COLLAPSE_ASHDITCH" ∈ DialogueTemplate.requiredEventIds t2
  ∧ (lit "EV_WELL_COLLAPSE_ASHDITCH" ∉ DialogueContext.recentEventIds calm_ctx)
  ∧ (t2 ∉ CollectCandidates demo_system calm_ctx oldNeighbor Misdirection).
Proof.
  assert (lit "EV_WELL_COLLAPSE_ASHDITCH" ∈ DialogueTemplate.requiredEventIds t2)
    as Hreq by (simpl; left).
  assert (lit "EV_WELL_COLLAPSE_ASHDITCH" ∉ DialogueContext.recentEventIds calm_ctx)
    as Hmiss by (simpl; apply not_elem_of_empty).
  split; [exact Hreq|]. split; [exact Hmiss|].
  exact (proj2 (proj2 (proj2
           (CollectCandidates_filter demo_system calm_ctx oldNeighbor Misdirection)))
           t2 _ Hreq Hmiss).
Defined.



(** A tag the router does not know, in the demo context: the threat level
    is 0.5 and no rumor is known, so the category is ambient. *)
Lemma MapTriggerToFunction_policy_witness :
  (lit "on_full_moon" ∉ explicit_triggers)
  ∧ MapTriggerToFunction (lit "on_full_moon") demo_ctx oldNeighbor = NeutralAmbient.
Proof.
  assert (lit "on_full_moon" ∉ explicit_triggers) as Hother.
  { apply (bool_decide_unpack _). vm_compute. exact I. }
  split; [exact Hother|].
  destruct (MapTriggerToFunction_policy (lit "on_full_moon") demo_ctx oldNeighbor)
    as (_ & _ & _ & _ & _ & _ & _ & _ & _ & Hfallback).
  rewrite (Hfallback Hother). vm_compute. reflexivity.
Defined.

(** C7 as stated, at weights that sum to zero: the only candidate has weight
    zero, and the call returns its line, not the empty one. *)
Lemma GenerateLine_degenerate_weights_counterexample :
  fle (sum_weights F32.zero
         (CollectCandidates (system_with weightless_template (terse F32.zero) [])
            calm_ctx (terse F32.zero) Surprise))
      F32.zero = true
  ∧ ∃ sys',
      GenerateLine (system_with weightless_template (terse F32.zero) [])
        (lit "NPC_TERSE") (lit "on_player_surprised") calm_ctx
      = inr (lit "What was that?", sys').
Proof.
  split; [vm_compute; reflexivity|].
  eexists. vm_compute. reflexivity.
Qed.

(** An NPC that was never registered. *)
Lemma GenerateLine_rejections_witness :
  GetNPCProfile demo_system (lit "NPC_GHOST") = None
  ∧ GenerateLine demo_system (lit "NPC_GHOST") (lit "on_night_heartbeat") demo_ctx
    = inr ([], demo_system).
Proof.
  assert (GetNPCProfile demo_system (lit "NPC_GHOST") = None) as Hghost
    by (vm_compute; reflexivity).
  split; [exact Hghost|].
  exact (proj1 (GenerateLine_rejections demo_system (lit "NPC_GHOST")
                  (lit "on_night_heartbeat") demo_ctx) Hghost).
Defined.

(** C8 as stated, at a line without a space: the verbosity slider is below
    0.3 and the line has 70 characters; there is no space to cut at, the
    line is returned whole with nothing drawn, and the result is no cut of
    the line at or before position 60, with or without the ellipsis. *)
Lemma StyleTruncate_no_space_counterexample :
  flt (NPCVoiceProfile.verbosity01 (terse F32.zero)) (F32.ratio 3 10) = true
  ∧ 60 < length (replicate 70 "x"%char)
  ∧ (∀ cutPos, replicate 70 "x"%char !! cutPos ≠ Some " "%char)
  ∧ StyleTruncate (replicate 70 "x"%char) (terse F32.zero) [true]
    = (replicate 70 "x"%char, [true])
  ∧ (∀ cutPos g',
       cutPos ≤ 60 →
       StyleTruncate (replicate 70 "x"%char) (terse F32.zero) [true]
         ≠ (take cutPos (replicate 70 "x"%char), g')
       ∧ StyleTruncate (replicate 70 "x"%char) (terse F32.zero) [true]
         ≠ (take cutPos (replicate 70 "x"%char) ++ lit "...", g')).
Proof.
  assert (StyleTruncate (replicate 70 "x"%char) (terse F32.zero) [true]
          = (replicate 70 "x"%char, [true])) as Heq by reflexivity.
  split; [reflexivity|]. split; [simpl; lia|]. split; [|split; [exact Heq|]].
  - intros cutPos Hc. apply lookup_replicate in Hc as [Hc _]. discriminate.
  - intros cutPos g' Hcut. rewrite Heq.
    split; intros [= Hline _]; apply (f_equal length) in Hline;
      rewrite ?length_app, length_take in Hline; simpl in Hline; lia.
Qed.

(** The flat notice has 99 characters and a space at position 60: it is
    cut there, and the scripted draw appends the ellipsis. *)
Lemma StyleTruncate_spec_witness :
  flt (NPCVoiceProfile.verbosity01 (terse F32.zero)) (F32.ratio 3 10) = true
  ∧ 60 < length (DialogueTemplate.text t4)
  ∧ last_char_at (DialogueTemplate.text t4) " "%char 60 60
  ∧ StyleTruncate (DialogueTemplate.text t4) (terse F32.zero) [true]
    = (lit "If you hear singing in the stairwell, do not open your door....", []).
Proof.
  assert (last_char_at (DialogueTemplate.text t4) " "%char 60 60) as Hcut.
  { apply rfind_Some. vm_compute. reflexivity. }
  assert (60 < length (DialogueTemplate.text t4)) as Hlong by (vm_compute; lia).
  split; [reflexivity|]. split; [exact Hlong|]. split; [exact Hcut|].
  rewrite (proj1 (proj1 (StyleTruncate_spec (DialogueTemplate.text t4)
                           (terse F32.zero) [true]) eq_refl Hlong) 60 Hcut).
  vm_compute. reflexivity.
Defined.

(** The dread line of the forest holds no placeholder. *)
Lemma SubstituteTokens_token_free_witness :
  Forall (λ token, ¬ occurs token (DialogueTemplate.text t1)) placeholders
  ∧ SubstituteTokens t1 demo_ctx oldNeighbor = DialogueTemplate.text t1.
Proof.
  assert (Forall (λ token, ¬ occurs token (DialogueTemplate.text t1)) placeholders)
    as Hfree.
  { repeat constructor; apply find_first_None; vm_compute; reflexivity. }
  split; [exact Hfree|].
  exact (SubstituteTokens_token_free t1 demo_ctx oldNeighbor Hfree).
Defined.

(** C10 on the code: the text is not empty and opens with its only space;
    with a verbosity slider below 0.3 the line is cut at position 0, which
    leaves the empty line; no ellipsis is drawn; with a superstition slider
    above 0.7 and a successful draw the style pass then reads [back()] of
    the empty line. *)
Theorem ApplyStyleNoise_reads_back_of_empty_line :
  DialogueTemplate.text leading_space_template ≠ []
  ∧ SubstituteTokens leading_space_template calm_ctx (terse (F32.ratio 9 10))
    = DialogueTemplate.text leading_space_template
  ∧ StyleTruncate (DialogueTemplate.text leading_space_template)
      (terse (F32.ratio 9 10)) [false; true] = ([], [true])
  ∧ RealizeTemplate leading_space_template calm_ctx (terse (F32.ratio 9 10))
      [false; true] = inl BackOfEmptyString
  ∧ GenerateLine
      (system_with leading_space_template (terse (F32.ratio 9 10)) [false; true])
      (lit "NPC_TERSE") (lit "on_player_surprised") calm_ctx
    = inl BackOfEmptyString.
Proof. repeat split; try discriminate; vm_compute; reflexivity. Qed.

(** The same defect without the closing fragment: the text opens with its
    only space and the verbosity slider is below 0.3. The call is none of
    the three rejections: the template is chosen and the ledger entry of
    the pair is set; the truncation then cuts the line at position 0, and
    the call returns the empty line with the ledger changed. *)
Lemma GenerateLine_empty_line_after_selection :
  ¬ rejected (system_with leading_space_template (terse F32.zero) [])
      (lit "NPC_TERSE") (lit "on_player_surprised") calm_ctx
  ∧ ∃ sys',
      GenerateLine (system_with leading_space_template (terse F32.zero) [])
        (lit "NPC_TERSE") (lit "on_player_surprised") calm_ctx
      = inr ([], sys')
      ∧ lastFireTimestamps
          (system_with leading_space_template (terse F32.zero) [])
          !! (lit "NPC_TERSE", Surprise) = None
      ∧ lastFireTimestamps sys' !! (lit "NPC_TERSE", Surprise)
        = Some (F64.of_Z 0)
      ∧ lastFireTimestamps sys'
        ≠ lastFireTimestamps
            (system_with leading_space_template (terse F32.zero) []).
Proof.
  split.
  - assert (GetNPCProfile
              (system_with leading_space_template (terse F32.zero) [])
              (lit "NPC_TERSE") = Some (terse F32.zero)) as Hget
      by (vm_compute; reflexivity).
    intros [Hnone | (profile & Hp & Hwhy)].
    + rewrite Hget in Hnone. discriminate.
    + rewrite Hget in Hp. injection Hp as <-.
      destruct Hwhy as [Hcool | Hcand];
        [vm_compute in Hcool | vm_compute in Hcand]; discriminate.
  - eexists. split; [vm_compute; reflexivity|].
    split; [vm_compute; reflexivity|]. split; [vm_compute; reflexivity|].
    intros Heq. apply (f_equal (λ m, m !! (lit "NPC_TERSE", Surprise))) in Heq.
    vm_compute in Heq. discriminate.
Qed.

(** The second heartbeat of the demo is on cooldown: the call is rejected
    and the system is left as it was. *)
Lemma GenerateLine_ledger_witness :
  rejected (SetCurrentTimeSeconds demo_after_heartbeat (F64.of_Z 10))
    (lit "NPC_OLD_NEIGHBOR") (lit "on_night_heartbeat") demo_ctx
  ∧ GenerateLine (SetCurrentTimeSeconds demo_after_heartbeat (F64.of_Z 10))
      (lit "NPC_OLD_NEIGHBOR") (lit "on_night_heartbeat") demo_ctx
    = inr ([], SetCurrentTimeSeconds demo_after_heartbeat (F64.of_Z 10)).
Proof.
  assert (rejected (SetCurrentTimeSeconds demo_after_heartbeat (F64.of_Z 10))
            (lit "NPC_OLD_NEIGHBOR") (lit "on_night_heartbeat") demo_ctx)
    as Hrejected.
  { right. exists oldNeighbor. split; [vm_compute; reflexivity|].
    left. vm_compute. reflexivity. }
  split; [exact Hrejected|].
  exact (proj1 (GenerateLine_ledger _ _ _ _) Hrejected).
Defined.

(** ** Further scenarios *)

Lemma scripted_draws_in_range : draws_in_range (list bool).
Proof. intros a b g Hab. simpl. lia. Qed.

Lemma demo_system_reachable : reachable demo_system.
Proof. apply reach_register, reach_set_time, reach_new. Qed.

Lemma demo_system_old_neighbor :
  GetNPCProfile demo_system (lit "NPC_OLD_NEIGHBOR") = Some oldNeighbor.
Proof. vm_compute. reflexivity. Qed.

(** The scenario of the loader: of the four elements one is registered,
    with a warning for the taboo that the knowledge graph does not hold;
    the branded text and the unit without identifier are skipped with a
    warning each, the stray number without one. *)
Example demo_load :
  LoadDialogueUnitsFromFile (Some (lit "[ ... ]")) (lit "units.json") demo_kg []
  = (true, [demo_unit],
     [ lit "DialogueTemplate 'UNIT_STAY_INSIDE' references missing Taboo ID 'TABS_UNHEARD_OF'";
       lit "DialogueDataLoader: Text for 'UNIT_BRANDED' failed IP guardrail (forbidden markers).";
       lit "DialogueDataLoader: Skipping DialogueUnit with missing id/text in 'units.json'" ]).
Proof. vm_compute. reflexivity. Qed.

Example float_of_double_one : float_of_double (F64.of_Z 1) = F32.of_Z 1.
Proof. reflexivity. Qed.

(** The heartbeat of the demo changes the ledger and nothing else. *)
Lemma GenerateLine_frame_witness :
  GenerateLine demo_system (lit "NPC_OLD_NEIGHBOR") (lit "on_night_heartbeat")
    demo_ctx
  = inr (lit "The trees remember what the village forgets.", demo_after_heartbeat)
  ∧ npcProfiles demo_after_heartbeat = npcProfiles demo_system
  ∧ templates demo_after_heartbeat = templates demo_system
  ∧ emergentEvents demo_after_heartbeat = emergentEvents demo_system
  ∧ currentTimeSeconds demo_after_heartbeat = currentTimeSeconds demo_system.
Proof.
  split; [exact demo_heartbeat_line|].
  destruct (GenerateLine_frame demo_system _ _ _ _ _ demo_heartbeat_line)
    as (Hreg & Hpool & Hlog & Hclock & _).
  auto.
Defined.

(** Registering the terse speaker does not change the heartbeat line of
    the old neighbor. *)
Lemma GenerateLine_other_registration_witness :
  NPCVoiceProfile.npcId (terse F32.zero) ≠ lit "NPC_OLD_NEIGHBOR"
  ∧ GenerateLine (RegisterNPCProfile demo_system (terse F32.zero))
      (lit "NPC_OLD_NEIGHBOR") (lit "on_night_heartbeat") demo_ctx
    = inr (lit "The trees remember what the village forgets.",
           RegisterNPCProfile demo_after_heartbeat (terse F32.zero)).
Proof.
  assert (NPCVoiceProfile.npcId (terse F32.zero) ≠ lit "NPC_OLD_NEIGHBOR")
    as Hne by discriminate.
  split; [exact Hne|].
  rewrite (GenerateLine_other_registration demo_system (terse F32.zero)
             (lit "NPC_OLD_NEIGHBOR") (lit "on_night_heartbeat") demo_ctx Hne).
  rewrite demo_heartbeat_line. reflexivity.
Defined.

(** After the heartbeat, a dread line, the old neighbor can still give a
    ritual hint. *)
Lemma GenerateLine_cooldown_independent_witness :
  GenerateLine demo_system (lit "NPC_OLD_NEIGHBOR") (lit "on_night_heartbeat")
    demo_ctx
  = inr (lit "The trees remember what the village forgets.", demo_after_heartbeat)
  ∧ CanFire demo_after_heartbeat oldNeighbor RitualHint
    = CanFire demo_system oldNeighbor RitualHint.
Proof.
  split; [exact demo_heartbeat_line|].
  apply (GenerateLine_cooldown_independent demo_system _ _ _ _ _ oldNeighbor
           RitualHint demo_heartbeat_line).
  intros profile Hp. rewrite demo_system_old_neighbor in Hp.
  injection Hp as <-. right. vm_compute. discriminate.
Defined.

(** The state of the demo after the heartbeat is reached from the
    constructor. *)
Lemma reachable_invariants_witness :
  reachable demo_after_heartbeat
  ∧ registry_keyed demo_after_heartbeat
  ∧ ledger_registered demo_after_heartbeat
  ∧ templates demo_after_heartbeat = InitializeDefaultTemplates.
Proof.
  assert (reachable demo_after_heartbeat) as Hreach.
  { eapply reach_generate; [exact demo_system_reachable|].
    exact demo_heartbeat_line. }
  split; [exact Hreach|].
  exact (reachable_invariants demo_after_heartbeat Hreach).
Defined.

(** The dread line of the forest, spoken by the old neighbor. *)
Lemma RealizeTemplate_defined_witness :
  DialogueTemplate.text t1 ≠ []
  ∧ DialogueTemplate.text t1 !! 0 ≠ Some " "%char
  ∧ ∃ line g', RealizeTemplate t1 demo_ctx oldNeighbor [] = inr (line, g')
               ∧ line ≠ [].
Proof.
  assert (DialogueTemplate.text t1 ≠ []) as Htext by discriminate.
  assert (DialogueTemplate.text t1 !! 0 ≠ Some " "%char) as Hfirst
    by discriminate.
  split; [exact Htext|]. split; [exact Hfirst|].
  apply (RealizeTemplate_defined t1 demo_ctx oldNeighbor []
           scripted_draws_in_range Htext).
  right. exact Hfirst.
Defined.

(** The demo system, and a tag that finds no candidate. *)
Lemma GenerateLine_defined_witness :
  reachable demo_system
  ∧ ∃ line sys',
      GenerateLine demo_system (lit "NPC_OLD_NEIGHBOR") (lit "on_enemy_spotted")
        demo_ctx = inr (line, sys')
      ∧ (line = [] ↔ rejected demo_system (lit "NPC_OLD_NEIGHBOR")
                       (lit "on_enemy_spotted") demo_ctx)
      ∧ (line = [] → sys' = demo_system).
Proof.
  split; [exact demo_system_reachable|].
  apply (GenerateLine_defined demo_system (lit "NPC_OLD_NEIGHBOR")
           (lit "on_enemy_spotted") demo_ctx scripted_draws_in_range).
  right. exact demo_system_reachable.
Defined.

(** The flat notice cut at its 60th byte, with the ellipsis. *)
Lemma ApplyStyleNoise_length_witness :
  ApplyStyleNoise (DialogueTemplate.text t4) (terse F32.zero) Bureaucratic [true]
  = inr (lit "If you hear singing in the stairwell, do not open your door....", [])
  ∧ length (lit "If you hear singing in the stairwell, do not open your door....")
    ≤ length (DialogueTemplate.text t4) + 48.
Proof.
  assert (ApplyStyleNoise (DialogueTemplate.text t4) (terse F32.zero)
            Bureaucratic [true]
          = inr (lit "If you hear singing in the stairwell, do not open your door....", []))
    as Hstyle by (vm_compute; reflexivity).
  split; [exact Hstyle|].
  exact (ApplyStyleNoise_length _ _ _ _ _ _ Hstyle).
Defined.

(** The plain speaker leaves the flat notice as it is, whatever the draws
    would be. *)
Lemma ApplyStyleNoise_neutral_witness :
  ApplyStyleNoise (DialogueTemplate.text t4) plain Bureaucratic [true; true; true]
  = inr (DialogueTemplate.text t4, [true; true; true]).
Proof.
  apply (ApplyStyleNoise_neutral (DialogueTemplate.text t4) plain Bureaucratic
           [true; true; true]); reflexivity.
Defined.

(** The scenario of the loader. *)
Lemma LoadDialogueUnitsFromFile_spec_witness :
  LoadDialogueUnitsFromFile (Some (lit "[ ... ]")) (lit "units.json") demo_kg []
  = (true, [demo_unit],
     [ lit "DialogueTemplate 'UNIT_STAY_INSIDE' references missing Taboo ID 'TABS_UNHEARD_OF'";
       lit "DialogueDataLoader: Text for 'UNIT_BRANDED' failed IP guardrail (forbidden markers).";
       lit "DialogueDataLoader: Skipping DialogueUnit with missing id/text in 'units.json'" ])
  ∧ Forall accepted_unit [demo_unit]
  ∧ length [demo_unit] ≤ JsonLite.Size demo_units.
Proof.
  split; [exact demo_load|].
  destruct (LoadDialogueUnitsFromFile_spec _ _ _ _ _ _ _ demo_load)
    as (_ & _ & _ & Hok & Hsize).
  split; [exact Hok|].
  exact (Hsize (lit "[ ... ]") demo_units eq_refl eq_refl).
Defined.

(** The heartbeat spoken while the clock is NaN: the entry of the pair is
    NaN, and the pair cannot fire at time 1000 either. *)
Lemma CanFire_nan_witness :
  (∃ line sys',
     GenerateLine (SetCurrentTimeSeconds demo_system S754_nan)
       (lit "NPC_OLD_NEIGHBOR") (lit "on_night_heartbeat") demo_ctx
     = inr (line, sys')
     ∧ line ≠ []
     ∧ lastFireTimestamps sys' !! (NPCVoiceProfile.npcId oldNeighbor, Dread)
       = Some S754_nan
     ∧ CanFire (SetCurrentTimeSeconds sys' (F64.of_Z 1000)) oldNeighbor Dread
       = false).
Proof.
  eexists _, _. split; [vm_compute; reflexivity|]. split; [discriminate|].
  match goal with
  | |- ?L = _ ∧ _ => assert (L = Some S754_nan) as Hlast by (vm_compute; reflexivity)
  end.
  split; [exact Hlast|].
  apply (CanFire_nan _ oldNeighbor Dread S754_nan Hlast);
    [vm_compute; reflexivity | reflexivity].
Defined.

(** The rumor realized for the old neighbor in the demo context: every
    placeholder is gone. *)
Example demo_rumor_line :
  RealizeTemplate demo_rumor demo_ctx oldNeighbor []
  = inr (lit "you, stay out of Ash Ditch: no whistling after dark. Ash Ditch keeps the bent one.",
         []).
Proof. vm_compute. reflexivity. Qed.

(** A pool that holds a weight that is not a number: the heartbeat finds
    the two dread lines, their weights sum to NaN, and the call stops at
    the draw. *)
Example GenerateLine_nan_weight_pool :
  GenerateLine (system_with t1_nan oldNeighbor []) (lit "NPC_OLD_NEIGHBOR")
    (lit "on_night_heartbeat") demo_ctx
  = inl DistributionBounds.
Proof. vm_compute. reflexivity. Qed.

(** Three candidates, the first with a NaN weight. *)
Lemma PickTemplateWeighted_nan_weight_witness :
  DialogueTemplate.weight t1_nan = S754_nan
  ∧ PickTemplateWeighted [t1_nan; t3; t5] ([] : list bool)
    = inl DistributionBounds
  ∧ pick_scan (F32.of_Z 1) F32.zero [t1_nan; t3; t5] = None.
Proof.
  split; [reflexivity|].
  destruct (PickTemplateWeighted_nan_weight t1_nan [t3; t5] ([] : list bool)
              eq_refl) as (_ & _ & Hpick & Hscan).
  split; [exact Hpick | apply Hscan].
Defined.
